(** * fake-data-generator: generation of fake records and export to CSV, JSON and TXT

    A shallow embedding of [main.py]: [generate_data_pandas] and
    [save_all_formats], over an explicit world (the module-level [fake]
    object, the file system and standard output) threaded through a state and
    exception monad.  The behaviour of the libraries the script calls (Faker,
    pandas, [os]) is given by small executable models, each introduced where
    it is used. *)

From Stdlib Require Import ZArith String Ascii List Lia DecimalString.
From stdpp Require Import base decidable option list gmap sets strings.

#[local] Set Warnings "-register-all,-clear-no-such-hyp".
Open Scope Z_scope.

(** ** Python exceptions *)

(** The exception classes that reach the script.  [KeyboardInterrupt] stands
    for the classes that derive from [BaseException] but not from
    [Exception]. *)
Inductive exc_class :=
  | ValueError
  | TypeError
  | RuntimeError
  | OSError
  | FileExistsError
  | FileNotFoundError
  | PermissionError
  | NotADirectoryError
  | UniquenessException
  | KeyboardInterrupt.

(** An exception object: its class, [str(e)], and [__context__], which Python
    sets to the exception being handled when a [raise] runs inside an
    [except] block. *)
Inductive exn := Exn (cls : exc_class) (text : string) (context : option exn).

Definition exc_cls (e : exn) : exc_class := let 'Exn c _ _ := e in c.
Definition str (e : exn) : string := let 'Exn _ t _ := e in t.
Definition exc_context (e : exn) : option exn := let 'Exn _ _ c := e in c.

(** [isinstance(e, OSError)] *)
Definition is_OSError (c : exc_class) : bool :=
  match c with
  | OSError | FileExistsError | FileNotFoundError | PermissionError
  | NotADirectoryError => true
  | _ => false
  end.

(** [isinstance(e, Exception)] *)
Definition is_Exception (c : exc_class) : bool :=
  match c with
  | KeyboardInterrupt => false
  | _ => true
  end.

(** ** The ambient state *)

(** A calendar date, as returned by [fake.date_this_decade()]. *)
Record date := Date { year : nat; month : nat; day : nat }.

(** The pseudo-random source behind the Faker instance: what the [n]-th
    provider call draws.  Every theorem quantifies over it. *)
Record Entropy := {
  rand_int : nat -> Z;
  rand_str : nat -> string;
  rand_date : nat -> date
}.

(** The module-level object [fake = Faker('ru_RU')].  [seen] is the set kept
    by [fake.unique] for the call [random_int(min=100000, max=999999)]; it
    lives as long as the process. *)
Record Faker := {
  entropy : Entropy;
  cursor : nat;
  seen : gset Z
}.

(** The calls that the environment may refuse: creating a directory,
    opening a file for writing, turning the table into the text meant for a
    file, and writing that text. *)
Inductive fs_op :=
  | OpMakedirs (path : string)
  | OpOpen (path : string)
  | OpSerialize (path : string)
  | OpWrite (path : string).

(** What a written file holds. *)
Inductive json :=
  | JNull
  | JNum (z : Z)
  | JStr (s : string)
  | JArr (items : list json)
  | JObj (members : list (string * json)).

(** A file holds a document, kept in structured form (the byte layout that
    pandas gives it is not modelled), or is [Partial]: opened for writing and
    not yet completely written. *)
Inductive content :=
  | Partial
  | CsvFile (encoding : string) (table : list (list string))
  | JsonFile (force_ascii : bool) (indent : nat) (doc : json)
  | TxtFile (encoding : string) (table : list (list string)).

(** Paths are compared as strings.  [fault] is the environment: the
    exception, if any, with which it refuses an operation (permission denied,
    disk full, ...). *)
Record FS := {
  dirs : gset string;
  files : gmap string content;
  fault : fs_op -> option exn
}.

(** One line printed on standard output.  The line that reports the elapsed
    time carries a wall-clock figure, which is not modelled. *)
Inductive out_line :=
  | Line (s : string)
  | ElapsedLine.

Record World := {
  faker : Faker;
  fsys : FS;
  stdout : list out_line
}.

Definition set_faker (f : Faker) (w : World) : World :=
  {| faker := f; fsys := fsys w; stdout := stdout w |}.
Definition set_fsys (s : FS) (w : World) : World :=
  {| faker := faker w; fsys := s; stdout := stdout w |}.
Definition set_stdout (o : list out_line) (w : World) : World :=
  {| faker := faker w; fsys := fsys w; stdout := o |}.

(** ** Computations that change the world and may raise *)

Definition M (A : Type) : Type := World -> (exn + A) * World.

Definition raise {A} (e : exn) : M A := fun w => (inl e, w).

Definition bind {A B} (k : A -> M B) (m : M A) : M B :=
  fun w => match m w with
           | (inr a, w') => k a w'
           | (inl e, w') => (inl e, w')
           end.

#[global] Instance M_ret : MRet M := fun A a w => (inr a, w).
#[global] Instance M_bind : MBind M := @bind.

(** [try: m except ...: h e]; the handler decides which classes it takes. *)
Definition try_except {A} (m : M A) (h : exn -> M A) : M A :=
  fun w => match m w with
           | (inr a, w') => (inr a, w')
           | (inl e, w') => h e w'
           end.

Definition emit (l : out_line) (w : World) : World :=
  set_stdout (stdout w ++ [l]) w.

(** [print(l)].  Standard output is taken to accept every line: its encoding
    has the symbols that the script prints. *)
Definition print (l : out_line) : M unit := fun w => (inr tt, emit l w).

(** ** Faker *)

Definition with_faker {A} (f : Faker -> A * Faker) : M A :=
  fun w => let '(a, fk) := f (faker w) in (inr a, set_faker fk w).

Definition advance (fk : Faker) : Faker :=
  {| entropy := entropy fk; cursor := S (cursor fk); seen := seen fk |}.

(** [random_int(min, max)] is [random.randrange(min, max + 1)]. *)
Definition random_int (min max : Z) (fk : Faker) : Z * Faker :=
  (min + rand_int (entropy fk) (cursor fk) mod (max - min + 1), advance fk).

(** The providers that return text. *)
Definition draw_str (fk : Faker) : string * Faker :=
  (rand_str (entropy fk) (cursor fk), advance fk).

Definition draw_date (fk : Faker) : date * Faker :=
  (rand_date (entropy fk) (cursor fk), advance fk).

Definition _UNIQUE_ATTEMPTS : nat := 1000.

Definition uniqueness_exception : exn :=
  Exn UniquenessException "Got duplicated values after 1,000 iterations." None.

Definition remember (v : Z) (fk : Faker) : Faker :=
  {| entropy := entropy fk; cursor := cursor fk; seen := {[v]} ∪ seen fk |}.

(** The wrapper that [fake.unique] puts around a provider:
<<
    retval = self._sentinel
    for i in range(_UNIQUE_ATTEMPTS):
        if retval not in generated:
            break
        retval = function()
    else:
        raise UniquenessException(...)
    generated.add(retval)
    return retval
>>
    [retval = None] is the sentinel, which is always in [generated]. *)
Fixpoint unique_loop (attempts : nat) (min max : Z) (retval : option Z)
    (fk : Faker) : (exn + Z) * Faker :=
  match attempts with
  | O => (inl uniqueness_exception, fk)
  | S attempts' =>
      match retval with
      | Some v =>
          if decide (v ∈ seen fk)
          then let '(v', fk') := random_int min max fk in
               unique_loop attempts' min max (Some v') fk'
          else (inr v, remember v fk)
      | None =>
          let '(v', fk') := random_int min max fk in
          unique_loop attempts' min max (Some v') fk'
      end
  end.

Definition unique_random_int (min max : Z) : M Z :=
  fun w => let '(r, fk) := unique_loop _UNIQUE_ATTEMPTS min max None (faker w) in
           (r, set_faker fk w).

(** ** Records *)

(** A cell of the table. [VNaN] is what pandas puts where a row lacks a
    column. *)
Inductive value :=
  | VInt (z : Z)
  | VStr (s : string)
  | VNaN.

(** A Python [dict] with string keys: the items in insertion order. *)
Definition dict := list (string * value).

(** [s.replace(old, new)] for single characters. *)
Fixpoint replace (old new : ascii) (s : string) : string :=
  match s with
  | EmptyString => EmptyString
  | String c r => String (if Ascii.eqb c old then new else c) (replace old new r)
  end.

Definition newline : ascii := Ascii.ascii_of_nat 10.
Definition space : ascii := Ascii.ascii_of_nat 32.

Definition decimal (n : nat) : string :=
  DecimalString.NilZero.string_of_uint (Nat.to_uint n).

(** Left padding with zeros up to [width] characters. *)
Fixpoint zfill_aux (k : nat) (s : string) : string :=
  match k with
  | O => s
  | S k' => zfill_aux k' (String "0" s)
  end.

Definition zfill (width : nat) (s : string) : string :=
  zfill_aux (width - String.length s) s.

(** [d.strftime("%Y-%m-%d")] *)
Definition strftime_Ymd (d : date) : string :=
  zfill 4 (decimal (year d)) +:+ "-" +:+ zfill 2 (decimal (month d)) +:+ "-"
    +:+ zfill 2 (decimal (day d)).

(** The body of the generation loop: one dictionary per record, its keys in
    the order of the literal.  What the providers return is left to the
    pseudo-random source; the cap of [max_nb_chars=100] belongs to the
    provider. *)
Definition make_record : M dict :=
  id ← unique_random_int 100000 999999;
  name ← with_faker draw_str;
  company ← with_faker draw_str;
  job ← with_faker draw_str;
  email ← with_faker draw_str;
  ipv4 ← with_faker draw_str;
  date_this_decade ← with_faker draw_date;
  text ← with_faker draw_str;
  mret [ ("ID", VInt id);
        ("Имя", VStr name);
        ("Компания", VStr company);
        ("Должность", VStr job);
        ("Email", VStr email);
        ("IP-адрес", VStr ipv4);
        ("Дата регистрации", VStr (strftime_Ymd date_this_decade));
        ("Описание", VStr (replace newline space text)) ].

(** [for _ in range(n): data.append({...})] *)
Fixpoint generation_loop (n : nat) (data : list dict) : M (list dict) :=
  match n with
  | O => mret data
  | S n' => r ← make_record; generation_loop n' (data ++ [r])
  end.

(** ** pandas *)

Record DataFrame := {
  columns : list string;
  rows : list (list value)
}.

Definition keys (d : dict) : list string := d.*1.

(** [d.get(k)] *)
Fixpoint dict_get (k : string) (d : dict) : option value :=
  match d with
  | [] => None
  | (k', v) :: r => if decide (k' = k) then Some v else dict_get k r
  end.

(** The labels of [ks] that are not yet in [acc] are added at its end. *)
Fixpoint ordered_union (acc ks : list string) : list string :=
  match ks with
  | [] => acc
  | k :: r => ordered_union (if decide (k ∈ acc) then acc else acc ++ [k]) r
  end.

(** [pd.DataFrame(data)] for a list of dictionaries: the columns are the
    keys in order of first appearance, one row per dictionary. *)
Definition pd_DataFrame (data : list dict) : DataFrame :=
  let cols := foldl (fun acc d => ordered_union acc (keys d)) [] data in
  {| columns := cols;
     rows := map (fun d => map (fun c => default VNaN (dict_get c d)) cols) data |}.

Definition decimal_Z (z : Z) : string :=
  NilZero.string_of_int (Z.to_int z).

Definition csv_cell (v : value) : string :=
  match v with
  | VInt z => decimal_Z z
  | VStr s => s
  | VNaN => ""
  end.

Definition txt_cell (v : value) : string :=
  match v with
  | VInt z => decimal_Z z
  | VStr s => s
  | VNaN => "NaN"
  end.

Definition json_value (v : value) : json :=
  match v with
  | VInt z => JNum z
  | VStr s => JStr s
  | VNaN => JNull
  end.

(** [df.to_csv(index=False)]: the header row, then one row per record. *)
Definition csv_table (df : DataFrame) : list (list string) :=
  columns df :: map (map csv_cell) (rows df).

(** [df.to_json(orient='records')]: an array with one object per record. *)
Definition json_records (df : DataFrame) : json :=
  JArr (map (fun r => JObj (zip (columns df) (map json_value r))) (rows df)).

(** [df.to_string(index=False)]: the header line, then one line per record. *)
Definition txt_table (df : DataFrame) : list (list string) :=
  columns df :: map (map txt_cell) (rows df).

(** ** The generator *)

Definition advisory : out_line :=
  Line "⚠️  Внимание: при генерации более 900,000 записей могут возникнуть конфликты уникальных ID".

(** The count above which the advisory is printed. *)
Definition advisory_threshold : Z := 900000.

(** The [try] block of [generate_data_pandas] with its handler. *)
Definition generation_pass (num_records : Z) : M (list dict) :=
  try_except (generation_loop (Z.to_nat num_records) [])
    (fun e => if is_Exception (exc_cls e)
              then raise (Exn RuntimeError ("Ошибка при генерации данных: " +:+ str e) (Some e))
              else raise e).

(** [start_time = time.time()] reads the clock and changes nothing. *)
Definition generate_data_pandas (num_records : Z) : M DataFrame :=
  if num_records <? 1
  then raise (Exn ValueError "Количество записей должно быть больше 0" None)
  else
    (if advisory_threshold <? num_records then print advisory else mret tt);;
    data ← generation_pass num_records;
    let df := pd_DataFrame data in
    print ElapsedLine;;
    mret df.

(** ** The file system *)

Definition sep : ascii := "/"%char.

(** [p[:p.rfind('/') + 1]] *)
Fixpoint head_part (p : string) : string :=
  match p with
  | EmptyString => EmptyString
  | String c r =>
      match head_part r with
      | EmptyString => if Ascii.eqb c sep then String c EmptyString else EmptyString
      | h => String c h
      end
  end.

(** [s.rstrip('/')] *)
Fixpoint rstrip_sep (s : string) : string :=
  match s with
  | EmptyString => EmptyString
  | String c r =>
      match rstrip_sep r with
      | EmptyString => if Ascii.eqb c sep then EmptyString else String c EmptyString
      | r' => String c r'
      end
  end.

(** [s == '/' * len(s)] *)
Fixpoint all_sep (s : string) : bool :=
  match s with
  | EmptyString => true
  | String c r => Ascii.eqb c sep && all_sep r
  end.

(** [os.path.dirname] of [posixpath]:
<<
    i = p.rfind('/') + 1
    head = p[:i]
    if head and head != '/' * len(head):
        head = head.rstrip('/')
    return head
>> *)
Definition dirname (p : string) : string :=
  let head := head_part p in
  if negb (String.eqb head "") && negb (all_sep head) then rstrip_sep head else head.

(** A directory and the directories above it, nearest first. *)
Fixpoint lineage (fuel : nat) (name : string) : list string :=
  match fuel with
  | O => []
  | S fuel' =>
      if String.eqb name "" then []
      else name :: (if String.eqb (dirname name) name then []
                    else lineage fuel' (dirname name))
  end.

Definition set_dirs (d : gset string) (fs : FS) : FS :=
  {| dirs := d; files := files fs; fault := fault fs |}.
Definition set_files (f : gmap string content) (fs : FS) : FS :=
  {| dirs := dirs fs; files := f; fault := fault fs |}.

(** The current directory is written [""] and always exists. *)
Definition dir_exists (d : string) (fs : FS) : bool :=
  String.eqb d "" || bool_decide (d ∈ dirs fs).

Definition add_dirs (ds : list string) (w : World) : World :=
  set_fsys (set_dirs (list_to_set ds ∪ dirs (fsys w)) (fsys w)) w.

Definition put_file (path : string) (c : content) (w : World) : World :=
  set_fsys (set_files (<[path := c]> (files (fsys w))) (fsys w)) w.

(** Going up from [below] through the paths [above] it, nearest first: the
    recursion of [os.makedirs] stops at the first path that exists.  If that
    path is a regular file, the [mkdir] of the path just below it fails, and
    [stopped_by_file] is that path. *)
Fixpoint stopped_by_file (fs : FS) (below : string) (above : list string)
    : option string :=
  match above with
  | [] => None
  | a :: rest =>
      if bool_decide (is_Some (files fs !! a)) then Some below
      else if bool_decide (a ∈ dirs fs) then None
      else stopped_by_file fs a rest
  end.

(** [os.makedirs(name, exist_ok=...)] on a path without trailing separator:
    the leaf and every missing directory above it are created.  A leaf that
    is already a directory is an error unless [exist_ok]; a leaf that is a
    regular file is an error in any case, and so is a regular file met on the
    way up. *)
Definition makedirs (name : string) (exist_ok : bool) : M unit :=
  fun w =>
    match fault (fsys w) (OpMakedirs name) with
    | Some e => (inl e, w)
    | None =>
        if bool_decide (name ∈ dirs (fsys w)) && negb exist_ok
           || bool_decide (is_Some (files (fsys w) !! name))
        then (inl (Exn FileExistsError
                     ("[Errno 17] File exists: '" +:+ name +:+ "'") None), w)
        else
          match stopped_by_file (fsys w) name
                  (tail (lineage (S (String.length name)) name)) with
          | Some child =>
              (inl (Exn NotADirectoryError
                      ("[Errno 20] Not a directory: '" +:+ child +:+ "'") None), w)
          | None => (inr tt, add_dirs (lineage (S (String.length name)) name) w)
          end
    end.

(** Opening [path] for writing creates or truncates the file; the directory
    of the file must exist.  Every other refusal of the operating system, as
    for a path that is itself a directory, reaches the program through
    [fault]. *)
Definition open_w (path : string) : M unit :=
  fun w =>
    match fault (fsys w) (OpOpen path) with
    | Some e => (inl e, w)
    | None =>
        if dir_exists (dirname path) (fsys w)
        then (inr tt, put_file path Partial w)
        else (inl (Exn FileNotFoundError
                     ("[Errno 2] No such file or directory: '" +:+ path +:+ "'") None), w)
    end.

Definition serialize (path : string) : M unit :=
  fun w => match fault (fsys w) (OpSerialize path) with
           | Some e => (inl e, w)
           | None => (inr tt, w)
           end.

Definition write (path : string) (c : content) : M unit :=
  fun w =>
    match fault (fsys w) (OpWrite path) with
    | Some e => (inl e, w)
    | None => (inr tt, put_file path c w)
    end.

(** [df.to_csv(path, index=False, encoding=...)] *)
Definition to_csv (df : DataFrame) (path encoding : string) : M unit :=
  open_w path;; serialize path;; write path (CsvFile encoding (csv_table df)).

Definition columns_not_unique : exn :=
  Exn ValueError "DataFrame columns must be unique for orient='records'." None.

(** [df.to_json(path, orient='records', force_ascii=..., indent=...)]: pandas
    refuses a table with a repeated column label; the text is built before
    the file is opened. *)
Definition to_json (df : DataFrame) (path : string) (force_ascii : bool)
    (indent : nat) : M unit :=
  if bool_decide (NoDup (columns df))
  then serialize path;; open_w path;;
       write path (JsonFile force_ascii indent (json_records df))
  else raise columns_not_unique.

(** ** The exporter *)

Definition csv_path (base_name : string) : string := base_name +:+ ".csv".
Definition json_path (base_name : string) : string := base_name +:+ ".json".
Definition txt_path (base_name : string) : string := base_name +:+ ".txt".

Definition storage_prefix : string := "Ошибка при сохранении файлов: ".
Definition export_prefix : string := "Неожиданная ошибка при сохранении: ".

(** The directory of the files is created if the path names one. *)
Definition ensure_dir (base_name : string) : M unit :=
  let output_dir := dirname base_name in
  if String.eqb output_dir "" then mret tt else makedirs output_dir true.

Definition save_csv (df : DataFrame) (base_name : string) : M unit :=
  to_csv df (csv_path base_name) "utf-8-sig";;
  print (Line ("✓ CSV сохранен: " +:+ csv_path base_name)).

Definition save_json (df : DataFrame) (base_name : string) : M unit :=
  to_json df (json_path base_name) false 4;;
  print (Line ("✓ JSON сохранен: " +:+ json_path base_name)).

(** [with open(txt_path, 'w', encoding='utf-8') as f:
       f.write(df.to_string(index=False))] *)
Definition save_txt (df : DataFrame) (base_name : string) : M unit :=
  open_w (txt_path base_name);;
  serialize (txt_path base_name);;
  write (txt_path base_name) (TxtFile "utf-8" (txt_table df));;
  print (Line ("✓ TXT сохранен: " +:+ txt_path base_name)).

Definition report_saved (base_name : string) : M unit :=
  let output_dir := dirname base_name in
  let output_dir_display :=
    if String.eqb output_dir "" then "текущую директорию" else output_dir in
  print (Line (String newline ("✓ Все файлы успешно сохранены в "
                                 +:+ output_dir_display +:+ "/"))).

(** The [try] block of [save_all_formats]. *)
Definition save_steps (df : DataFrame) (base_name : string) : M unit :=
  ensure_dir base_name;;
  save_csv df base_name;;
  save_json df base_name;;
  save_txt df base_name;;
  report_saved base_name.

(** The two [except] clauses, tried in order. *)
Definition save_handler (e : exn) : M unit :=
  if is_OSError (exc_cls e)
  then raise (Exn OSError (storage_prefix +:+ str e) (Some e))
  else if is_Exception (exc_cls e)
  then raise (Exn RuntimeError (export_prefix +:+ str e) (Some e))
  else raise e.

Definition save_all_formats (df : DataFrame) (base_name : string) : M unit :=
  try_except (save_steps df base_name) save_handler.

(** ** Reading a table *)

(** [df.to_dict('records')] *)
Definition to_dict_records (df : DataFrame) : list dict :=
  map (fun r => zip (columns df) r) (rows df).

Definition dict_id (d : dict) : option Z :=
  match dict_get "ID" d with
  | Some (VInt z) => Some z
  | _ => None
  end.

(** The integer identifiers of the records of a table, in row order. *)
Definition ids (df : DataFrame) : list Z := omap dict_id (to_dict_records df).

(** The bounds passed to [random_int]. *)
Definition in_id_range (z : Z) : Prop := 100000 <= z <= 999999.

#[global] Instance in_id_range_dec z : Decision (in_id_range z).
Proof. unfold in_id_range. apply _. Defined.

(** The identifiers of the range that [fake.unique] can still hand out. *)
Definition remaining (fk : Faker) : Z :=
  900000 - Z.of_nat (size (filter in_id_range (seen fk))).

(** ** The data model of the specification *)

(** The fields of a Record, and the order in which the data model lists
    them. *)
Inductive field :=
  | Id | Name | Company | JobTitle | Email | IpAddress | RegistrationDate
  | Description.

Definition record_field_order : list field :=
  [Id; Name; Company; JobTitle; Email; IpAddress; RegistrationDate; Description].

(** The label under which the program stores each field. *)
Definition label (f : field) : string :=
  match f with
  | Id => "ID"
  | Name => "Имя"
  | Company => "Компания"
  | JobTitle => "Должность"
  | Email => "Email"
  | IpAddress => "IP-адрес"
  | RegistrationDate => "Дата регистрации"
  | Description => "Описание"
  end.

(** ** Reading the exported files *)

(** The field names of a file, in the order in which the file gives them:
    the header row of a CSV or text table; for JSON the keys of each object,
    which must agree between the objects. *)
Definition keys_agree (ks : list string) (j : json) : bool :=
  match j with
  | JObj members => bool_decide (members.*1 = ks)
  | _ => false
  end.

Definition file_fields (c : content) : option (list string) :=
  match c with
  | CsvFile _ (header :: _) => Some header
  | TxtFile _ (header :: _) => Some header
  | JsonFile _ _ (JArr (JObj members :: items)) =>
      if forallb (keys_agree members.*1) items then Some members.*1 else None
  | _ => None
  end.

Definition json_id (j : json) : option Z :=
  match j with
  | JObj (("ID", JNum z) :: _) => Some z
  | _ => None
  end.

Definition row_id (r : list string) : option string := head r.

(** The identifiers of the records of a file, as the file writes them, in
    file order. *)
Definition file_ids (c : content) : option (list string) :=
  match c with
  | CsvFile _ (_ :: body) => Some (omap row_id body)
  | TxtFile _ (_ :: body) => Some (omap row_id body)
  | JsonFile _ _ (JArr items) => Some (decimal_Z <$> omap json_id items)
  | _ => None
  end.

(** ** The command line program *)

(** [f"{n:,}"]: the decimal digits in groups of three, from the right. *)
Fixpoint group_thousands (digits_rev : list ascii) : list ascii :=
  match digits_rev with
  | a :: b :: c :: rest =>
      match rest with
      | [] => [a; b; c]
      | _ => a :: b :: c :: ","%char :: group_thousands rest
      end
  | _ => digits_rev
  end.

Definition format_thousands (n : Z) : string :=
  (if n <? 0 then "-" else "")
  +:+ string_of_list_ascii
        (rev (group_thousands
                (rev (list_ascii_of_string
                        (NilZero.string_of_uint (N.to_uint (Z.abs_N n))))))).

(** [s.lower()], on the letters A to Z; the other bytes stay, which does not
    matter for the comparison with ['y']. *)
Definition lower_ascii (c : ascii) : ascii :=
  let n := nat_of_ascii c in
  if (65 <=? n)%nat && (n <=? 90)%nat then ascii_of_nat (n + 32) else c.

Fixpoint lower (s : string) : string :=
  match s with
  | EmptyString => EmptyString
  | String c r => String (lower_ascii c) (lower r)
  end.

(** ["-" * n] *)
Fixpoint repeat_string (s : string) (n : nat) : string :=
  match n with
  | O => ""
  | S n' => s +:+ repeat_string s n'
  end.

(** The result of [parse_arguments()]. *)
Record Namespace := {
  count : Z;
  output : string
}.

(** The defaults of the two options. *)
Definition default_args : Namespace :=
  {| count := 1000; output := "output/test_data" |}.

(** The process: the world of the two functions, the lines waiting on
    standard input and the lines written to standard error. *)
Record Process := {
  world : World;
  stdin : list string;
  stderr : list string
}.

Definition set_world (w : World) (p : Process) : Process :=
  {| world := w; stdin := stdin p; stderr := stderr p |}.

(** [print(s, file=sys.stderr)] *)
Definition eprint (s : string) (p : Process) : Process :=
  {| world := world p; stdin := stdin p; stderr := stderr p ++ [s] |}.

(** [print(s)] *)
Definition oprint (s : string) (p : Process) : Process :=
  set_world (emit (Line s) (world p)) p.

(** How [main] ends: it returns, [sys.exit(code)] ends the process, an
    exception that no clause catches leaves it, or [input()] finds standard
    input at its end and its [EOFError] leaves it. *)
Inductive outcome :=
  | Returned
  | Exited (code : Z)
  | Propagated (e : exn)
  | EndOfInput.

(** [input(prompt)]: the prompt goes to standard output, without line end. *)
Definition input (prompt : string) (p : Process) : option string * Process :=
  let p1 := oprint prompt p in
  match stdin p1 with
  | [] => (None, p1)
  | l :: rest => (Some l, {| world := world p1; stdin := rest; stderr := stderr p1 |})
  end.

Definition dashes : string := repeat_string "-" 50.

(** The [try] block of [main]. *)
Definition main_steps (args : Namespace) : M unit :=
  print (Line ("🚀 Запуск генерации " +:+ format_thousands (count args) +:+ " строк..."));;
  print (Line dashes);;
  df_fake ← generate_data_pandas (count args);
  save_all_formats df_fake (output args);;
  print (Line dashes);;
  print (Line ("✅ Генерация завершена успешно! Создано "
                 +:+ format_thousands (count args) +:+ " записей.")).

(** The three [except] clauses of [main], tried in order. *)
Definition main_handler (e : exn) (p : Process) : outcome * Process :=
  match exc_cls e with
  | ValueError => (Exited 1, eprint ("❌ Ошибка валидации: " +:+ str e) p)
  | c =>
      if is_OSError c
      then (Exited 1, eprint ("❌ Ошибка файловой системы: " +:+ str e) p)
      else if is_Exception c
      then (Exited 1, eprint ("❌ Неожиданная ошибка: " +:+ str e) p)
      else (Propagated e, p)
  end.

Definition run_steps (args : Namespace) (p : Process) : outcome * Process :=
  match main_steps args (world p) with
  | (inr _, w) => (Returned, set_world w p)
  | (inl e, w) => main_handler e (set_world w p)
  end.

(** [main()], after [args = parse_arguments()]. *)
Definition main (args : Namespace) (p : Process) : outcome * Process :=
  if count args <? 1
  then (Exited 1, eprint "❌ Ошибка: Количество записей должно быть больше 0" p)
  else if 1000000 <? count args
  then
    let p1 := oprint "⚠️  Внимание: Генерация более 1,000,000 записей может занять много времени и памяти" p in
    match input "Продолжить? (y/n): " p1 with
    | (None, p2) => (EndOfInput, p2)
    | (Some response, p2) =>
        if String.eqb (lower response) "y"
        then run_steps args p2
        else (Exited 0, oprint "Отменено пользователем" p2)
    end
  else run_steps args p.

(** * Vocabulary of the properties *)

(** ** Records and identifiers *)

(** The labels of a record, in the order of the dictionary literal. *)
Definition record_labels : list string :=
  ["ID"; "Имя"; "Компания"; "Должность"; "Email"; "IP-адрес";
   "Дата регистрации"; "Описание"].

(** [d] is a record whose identifier is [id]. *)
Definition record_with_id (id : Z) (d : dict) : Prop :=
  ∃ name company job email ipv4 date text : string,
    d = [ ("ID", VInt id); ("Имя", VStr name); ("Компания", VStr company);
          ("Должность", VStr job); ("Email", VStr email);
          ("IP-адрес", VStr ipv4); ("Дата регистрации", VStr date);
          ("Описание", VStr text) ].

(** The value that the wrapper is about to test is the sentinel or a draw
    from the range. *)
Definition candidate_ok (min max : Z) (retval : option Z) : Prop :=
  match retval with
  | Some v => min <= v <= max
  | None => True
  end.

(** What a run of the loop that allocated the identifiers [new_ids], in this
    order, does to the world. *)
Record allocated (w w' : World) (new_ids : list Z) : Prop := {
  alloc_NoDup : NoDup new_ids;
  alloc_range : Forall in_id_range new_ids;
  alloc_fresh : Forall (fun i => i ∉ seen (faker w)) new_ids;
  alloc_seen : seen (faker w') = list_to_set new_ids ∪ seen (faker w);
  alloc_fsys : fsys w' = fsys w
}.

(** The values that [random_int(min=100000, max=999999)] can return. *)
Definition id_space : list Z := seqZ 100000 (999999 - 100000 + 1).

(** The lines that a successful call prints. *)
Definition generate_output (count : Z) : list out_line :=
  (if advisory_threshold <? count then [advisory] else []) ++ [ElapsedLine].

(** The error that [generate_data_pandas] raises when the allocator gives up:
    a [RuntimeError] whose text embeds the text of the [UniquenessException]
    and whose context is that exception. *)
Definition generation_error : exn :=
  Exn RuntimeError ("Ошибка при генерации данных: " +:+ str uniqueness_exception)
    (Some uniqueness_exception).

(** ** The exporter *)

Record fs_frame (w w' : World) : Prop := {
  frame_fault : fault (fsys w') = fault (fsys w);
  frame_dirs : dirs (fsys w) ⊆ dirs (fsys w');
  frame_faker : faker w' = faker w
}.

(** [m] changes no file other than those of [ps], whether it returns or
    raises. *)
Definition touches_only {A} (ps : list string) (m : M A) : Prop :=
  ∀ w r w', m w = (r, w') →
    fs_frame w w' ∧ ∀ p, p ∉ ps → files (fsys w') !! p = files (fsys w) !! p.

(** [df] holds the records [data], one row each, under the record labels. *)
Definition table_of_records (df : DataFrame) (data : list dict) : Prop :=
  data ≠ [] ∧ columns df = record_labels ∧ rows df = map (fun d => d.*2) data
  ∧ to_dict_records df = data.




(** [needle in hay] *)
Fixpoint str_contains (needle hay : string) : bool :=
  String.prefix needle hay
  || match hay with
     | EmptyString => false
     | String _ rest => str_contains needle rest
     end.

(** ** Sample worlds *)

Definition sample_entropy : Entropy :=
  {| rand_int := fun n => Z.of_nat n * 7;
     rand_str := fun n => "текст" +:+ decimal n;
     rand_date := fun n => Date 2024 3 (n mod 28 + 1)%nat |}.

Definition no_fault : fs_op -> option exn := fun _ => None.

Definition sample_world : World :=
  {| faker := {| entropy := sample_entropy; cursor := 0; seen := ∅ |};
     fsys := {| dirs := ∅; files := ∅; fault := no_fault |};
     stdout := [] |}.

(** The table of a run, or an empty table if the run raised. *)
Definition table_of (r : (exn + DataFrame) * World) : DataFrame :=
  match r.1 with
  | inr df => df
  | inl _ => {| columns := []; rows := [] |}
  end.

Definition sample_table : DataFrame :=
  table_of (generate_data_pandas 3 sample_world).

(** The error of a write on a full device: [str(e)] has no file name. *)
Definition disk_full : exn :=
  Exn OSError "[Errno 28] No space left on device" None.

(** The environment that refuses the writes to one file. *)
Definition refuse_write (path : string) (e : exn) : fs_op → option exn :=
  fun op => match op with
            | OpWrite p => if String.eqb p path then Some e else None
            | _ => None
            end.

Definition with_fault (f : fs_op → option exn) (w : World) : World :=
  set_fsys {| dirs := dirs (fsys w); files := files (fsys w); fault := f |} w.

(** ** Storage errors and paths *)

(** Every storage error names the path of the file whose write failed: the
    requirement of the specification, which [storage_error_without_path]
    shows not to hold. *)
Definition storage_errors_name_path : Prop :=
  ∀ (df : DataFrame) (base_name path : string) (w w' : World) (e0 e : exn),
    fault (fsys w) (OpWrite path) = Some e0 →
    is_OSError (exc_cls e0) = true →
    save_steps df base_name w = (inl e0, w') →
    save_all_formats df base_name w = (inl e, w') →
    exc_cls e = OSError ∧ str_contains path (str e) = true.

(** ** Further vocabulary: the generator *)

(** The pseudo-random source proposes the identifier [v] at every draw. *)
Definition stuck_source (fk : Faker) (v : Z) : Prop :=
  ∀ n, 100000 + rand_int (entropy fk) n mod (999999 - 100000 + 1) = v.

(** [c not in s] *)
Fixpoint lacks (c : ascii) (s : string) : bool :=
  match s with
  | EmptyString => true
  | String c' r => negb (Ascii.eqb c' c) && lacks c r
  end.

Definition is_digit (c : ascii) : bool :=
  let n := nat_of_ascii c in (48 <=? n)%nat && (n <=? 57)%nat.

Definition dash : ascii := "-"%char.

(** Four digits, a dash, two digits, a dash, two digits. *)
Definition is_iso_date (s : string) : bool :=
  match s with
  | String y1 (String y2 (String y3 (String y4 (String d1
      (String m1 (String m2 (String d2 (String a1 (String a2 EmptyString))))))))) =>
      is_digit y1 && is_digit y2 && is_digit y3 && is_digit y4
      && Ascii.eqb d1 dash && is_digit m1 && is_digit m2
      && Ascii.eqb d2 dash && is_digit a1 && is_digit a2
  | _ => false
  end.

Definition four_digits (s : string) : bool :=
  match s with
  | String a (String b (String c (String d EmptyString))) =>
      is_digit a && is_digit b && is_digit c && is_digit d
  | _ => false
  end.

Definition two_digits (s : string) : bool :=
  match s with
  | String a (String b EmptyString) => is_digit a && is_digit b
  | _ => false
  end.

Fixpoint all_successors (f : Decimal.uint → bool) (k : nat) (u : Decimal.uint) : bool :=
  match k with
  | O => true
  | S k' => f u && all_successors f k' (Decimal.Little.succ u)
  end.

(** A date of the Gregorian calendar with a year of four digits. *)
Definition four_digit_date (d : date) : Prop :=
  1000 <= Z.of_nat (year d) <= 9999 ∧ 1 <= Z.of_nat (month d) <= 12
  ∧ 1 <= Z.of_nat (day d) <= 31.

(** A row of a generated table: the identifier, then seven texts, of which
    the seventh is the registration date and the last is the description. *)
Definition record_row (ent : Entropy) (r : list value) : Prop :=
  ∃ (id : Z) (name company job email ipv4 raw : string) (k : nat),
    r = [ VInt id; VStr name; VStr company; VStr job; VStr email; VStr ipv4;
          VStr (strftime_Ymd (rand_date ent k));
          VStr (replace newline space raw) ]
    ∧ in_id_range id.

Definition row_date (r : list value) : option string :=
  match r !! 6%nat with
  | Some (VStr s) => Some s
  | _ => None
  end.

Definition row_description (r : list value) : option string :=
  match r !! 7%nat with
  | Some (VStr s) => Some s
  | _ => None
  end.

(** The source that always draws 0. *)
Definition zero_entropy : Entropy :=
  {| rand_int := fun _ => 0; rand_str := fun _ => ""; rand_date := fun _ => Date 2024 1 1 |}.

Definition stuck_world : World :=
  {| faker := {| entropy := zero_entropy; cursor := 0; seen := ∅ |};
     fsys := fsys sample_world;
     stdout := [] |}.

(** ** Further vocabulary: the exporter *)

(** [m] creates no directory and prints nothing, whether it returns or
    raises. *)
Definition silent {A} (m : M A) : Prop :=
  ∀ w r w', m w = (r, w') →
    dirs (fsys w') = dirs (fsys w) ∧ stdout w' = stdout w.

(** ['/' in s] *)
Fixpoint has_sep (s : string) : bool :=
  match s with
  | EmptyString => false
  | String c r => Ascii.eqb c sep || has_sep r
  end.

(** The lines that a successful export prints, in order. *)
Definition export_lines (base_name : string) : list out_line :=
  [ Line ("✓ CSV сохранен: " +:+ csv_path base_name);
    Line ("✓ JSON сохранен: " +:+ json_path base_name);
    Line ("✓ TXT сохранен: " +:+ txt_path base_name);
    Line (String newline
            ("✓ Все файлы успешно сохранены в "
               +:+ (if String.eqb (dirname base_name) "" then "текущую директорию"
                    else dirname base_name) +:+ "/")) ].

(** The three documents that an export of [df] writes. *)
Definition csv_document (df : DataFrame) : content :=
  CsvFile "utf-8-sig" (csv_table df).
Definition json_document (df : DataFrame) : content :=
  JsonFile false 4 (json_records df).
Definition txt_document (df : DataFrame) : content :=
  TxtFile "utf-8" (txt_table df).

(** The environment that refuses one operation. *)
Definition refuse (op : fs_op) (e : exn) : fs_op → option exn :=
  fun op' =>
    match op, op' with
    | OpMakedirs p, OpMakedirs q | OpOpen p, OpOpen q
    | OpSerialize p, OpSerialize q | OpWrite p, OpWrite q =>
        if String.eqb p q then Some e else None
    | _, _ => None
    end.

(** ** Further vocabulary: the command line program *)

Definition launch_line (args : Namespace) : out_line :=
  Line ("🚀 Запуск генерации " +:+ format_thousands (count args) +:+ " строк...").

Definition success_line (args : Namespace) : out_line :=
  Line ("✅ Генерация завершена успешно! Создано "
          +:+ format_thousands (count args) +:+ " записей.").

Definition size_warning : string :=
  "⚠️  Внимание: Генерация более 1,000,000 записей может занять много времени и памяти".

(** The process at the time the [try] block of [main] is entered: as it was,
    or after the warning, the prompt and the answer. *)
Definition at_try (args : Namespace) (p : Process) : Process :=
  if 1000000 <? count args
  then (input "Продолжить? (y/n): " (oprint size_warning p)).2
  else p.

(** The answers that the prompt takes for a yes. *)
Definition says_yes (response : string) : Prop := response = "y" ∨ response = "Y".

(** ** Generation order *)

(** The records [data] were produced one after the other, each by an
    iteration of the loop run from the world that the iteration before left:
    [w] is the world before the first record, [w'] the world after the last. *)
Inductive generated_in_order : World → list dict → World → Prop :=
  | generated_none (w : World) : generated_in_order w [] w
  | generated_next (w w1 w' : World) (r : dict) (data : list dict) :
      make_record w = (inr r, w1) →
      generated_in_order w1 data w' →
      generated_in_order w (r :: data) w'.

(** The record as a JSON object: its items, in their order. *)
Definition json_object (d : dict) : json :=
  JObj ((fun kv : string * value => (kv.1, json_value kv.2)) <$> d).

(** * Properties *)

(** ** Running computations *)

Lemma bind_run {A B} (m : M A) (k : A -> M B) w :
  (m ≫= k) w = match m w with
               | (inr a, w') => k a w'
               | (inl e, w') => (inl e, w')
               end.
Proof. reflexivity. Qed.

Lemma bind_inr {A B} (m : M A) (k : A -> M B) w b w' :
  (m ≫= k) w = (inr b, w') ->
  exists a w1, m w = (inr a, w1) /\ k a w1 = (inr b, w').
Proof.
  rewrite bind_run. destruct (m w) as [[e|a] w1]; [discriminate | eauto].
Qed.

Lemma bind_inl {A B} (m : M A) (k : A -> M B) w e w' :
  (m ≫= k) w = (inl e, w') ->
  m w = (inl e, w') \/ exists a w1, m w = (inr a, w1) /\ k a w1 = (inl e, w').
Proof.
  rewrite bind_run. destruct (m w) as [[e1|a] w1]; intros H.
  - left. injection H as -> ->. reflexivity.
  - right. exists a, w1. split; [reflexivity | exact H].
Qed.

(** ** The unique allocator *)

Section UniqueLoop.
Variables min max : Z.
Hypothesis min_le_max : min <= max.

Lemma random_int_range fk : min <= (random_int min max fk).1 <= max.
Proof.
  unfold random_int; simpl.
  pose proof (Z.mod_pos_bound (rand_int (entropy fk) (cursor fk)) (max - min + 1)).
  lia.
Qed.

Lemma unique_loop_inr attempts retval fk v fk' :
  candidate_ok min max retval ->
  unique_loop attempts min max retval fk = (inr v, fk') ->
  min <= v <= max ∧ (v ∉ seen fk) ∧ seen fk' = {[v]} ∪ seen fk
  ∧ entropy fk' = entropy fk.
Proof.
  revert retval fk.
  induction attempts as [|n IH]; intros retval fk Hc H; simpl in H; [discriminate|].
  destruct retval as [c|].
  - destruct (decide (c ∈ seen fk)) as [Hin|Hnin].
    + apply IH in H; [exact H | apply random_int_range].
    + injection H as <- <-. simpl in Hc. auto.
  - apply IH in H; [exact H | apply random_int_range].
Qed.

Lemma unique_loop_inl attempts retval fk e fk' :
  unique_loop attempts min max retval fk = (inl e, fk') ->
  e = uniqueness_exception ∧ seen fk' = seen fk ∧ entropy fk' = entropy fk.
Proof.
  revert retval fk.
  induction attempts as [|n IH]; intros retval fk H; simpl in H.
  - injection H as <- <-. auto.
  - destruct retval as [c|].
    + destruct (decide (c ∈ seen fk)); [|discriminate].
      apply IH in H. exact H.
    + apply IH in H. exact H.
Qed.
End UniqueLoop.

(** ** One record *)

Lemma record_with_id_keys id d : record_with_id id d → keys d = record_labels.
Proof. intros (?&?&?&?&?&?&?&->). reflexivity. Qed.

Lemma record_with_id_dict_id id d : record_with_id id d → dict_id d = Some id.
Proof. intros (?&?&?&?&?&?&?&->). reflexivity. Qed.

Lemma record_with_id_row id d :
  record_with_id id d →
  zip record_labels (map (fun c => default VNaN (dict_get c d)) record_labels) = d.
Proof. intros (?&?&?&?&?&?&?&->). reflexivity. Qed.

Lemma make_record_inr w d w' :
  make_record w = (inr d, w') →
  ∃ id, record_with_id id d ∧ in_id_range id ∧ (id ∉ seen (faker w))
        ∧ seen (faker w') = {[id]} ∪ seen (faker w)
        ∧ fsys w' = fsys w ∧ stdout w' = stdout w.
Proof.
  unfold make_record. intros H.
  apply bind_inr in H as (id & w1 & Hid & H).
  unfold unique_random_int in Hid.
  destruct (unique_loop _ _ _ _ _) as [r fk] eqn:Hloop.
  injection Hid as -> <-.
  apply unique_loop_inr in Hloop as (Hr & Hfresh & Hseen & _); [|lia|exact I].
  injection H as <- <-.
  exists id. repeat split; try assumption; try apply Hr.
  unfold record_with_id. repeat eexists.
Qed.

Lemma make_record_inl w e w' :
  make_record w = (inl e, w') →
  e = uniqueness_exception ∧ seen (faker w') = seen (faker w)
  ∧ fsys w' = fsys w ∧ stdout w' = stdout w.
Proof.
  unfold make_record. intros H.
  apply bind_inl in H as [H | (id & w1 & _ & H)]; [|discriminate].
  unfold unique_random_int in H.
  destruct (unique_loop _ _ _ _ _) as [r fk] eqn:Hloop.
  injection H as -> <-.
  apply unique_loop_inl in Hloop as (-> & Hseen & _). auto.
Qed.

(** ** The generation loop *)

Lemma allocated_nil w : allocated w w [].
Proof.
  split; try constructor; try reflexivity. simpl. set_solver.
Qed.

Lemma allocated_cons w w1 w' id new_ids :
  in_id_range id → id ∉ seen (faker w) →
  seen (faker w1) = {[id]} ∪ seen (faker w) →
  fsys w1 = fsys w →
  allocated w1 w' new_ids →
  allocated w w' (id :: new_ids).
Proof.
  intros Hr Hfresh Hseen Hfs [HN HR HF HS HFS].
  rewrite Hseen in HF, HS.
  split.
  - constructor; [|exact HN].
    intros Hin. rewrite Forall_forall in HF. apply (HF id Hin). set_solver.
  - constructor; assumption.
  - constructor; [exact Hfresh|].
    eapply Forall_impl; [exact HF|]. simpl. intros i Hi. set_solver.
  - rewrite HS. simpl. set_solver.
  - congruence.
Qed.

Lemma generation_loop_inr n data w data' w' :
  generation_loop n data w = (inr data', w') →
  ∃ new, data' = data ++ new ∧ length new = n
         ∧ stdout w' = stdout w
         ∧ ∃ new_ids, Forall2 record_with_id new_ids new
                      ∧ allocated w w' new_ids.
Proof.
  revert data w. induction n as [|n IH]; intros data w H; simpl in H.
  - injection H as <- <-. exists []. rewrite app_nil_r.
    repeat split. exists []. split; [constructor | apply allocated_nil].
  - apply bind_inr in H as (r & w1 & Hrec & H).
    apply make_record_inr in Hrec as (id & Hshape & Hr & Hfresh & Hseen & Hfs & Hout).
    apply IH in H as (new & -> & Hlen & Hout' & new_ids & Hrecs & Halloc).
    exists (r :: new). rewrite <- app_assoc. simpl.
    repeat split; [congruence | congruence |].
    exists (id :: new_ids). split; [constructor; assumption|].
    eapply allocated_cons; eassumption.
Qed.

(** A failing run leaves behind the identifiers it allocated before the
    allocator gave up. *)
Lemma generation_loop_inl n data w e w' :
  generation_loop n data w = (inl e, w') →
  e = uniqueness_exception
  ∧ fsys w' = fsys w ∧ stdout w' = stdout w.
Proof.
  revert data w. induction n as [|n IH]; intros data w H; simpl in H; [discriminate|].
  apply bind_inl in H as [H | (r & w1 & Hrec & H)].
  - apply make_record_inl in H as (-> & _ & Hfs & Hout). auto.
  - apply make_record_inr in Hrec as (id & _ & _ & _ & _ & Hfs & Hout).
    apply IH in H as (-> & Hfs' & Hout'). repeat split; congruence.
Qed.

(** ** The table built from the records *)

Lemma ordered_union_labels : ordered_union record_labels record_labels = record_labels.
Proof. reflexivity. Qed.

Lemma foldl_columns_labels data new_ids :
  Forall2 record_with_id new_ids data →
  foldl (fun acc d => ordered_union acc (keys d)) record_labels data = record_labels.
Proof.
  induction 1 as [|id d new_ids data Hd _ IH]; [reflexivity|].
  simpl. rewrite (record_with_id_keys _ _ Hd), ordered_union_labels. exact IH.
Qed.

Lemma pd_DataFrame_columns data new_ids :
  Forall2 record_with_id new_ids data → data ≠ [] →
  columns (pd_DataFrame data) = record_labels.
Proof.
  intros HF Hne. destruct HF as [|id d new_ids data Hd HF]; [done|].
  unfold pd_DataFrame; simpl. rewrite (record_with_id_keys _ _ Hd).
  change (ordered_union [] record_labels) with record_labels.
  eapply foldl_columns_labels, HF.
Qed.

Lemma pd_DataFrame_rows data :
  rows (pd_DataFrame data)
  = map (fun d => map (fun c => default VNaN (dict_get c d))
                    (columns (pd_DataFrame data))) data.
Proof. reflexivity. Qed.

(** The table of a non-empty list of records holds exactly these records, in
    the same order. *)
Lemma to_dict_records_pd_DataFrame data new_ids :
  Forall2 record_with_id new_ids data → data ≠ [] →
  to_dict_records (pd_DataFrame data) = data.
Proof.
  intros HF Hne. unfold to_dict_records.
  rewrite pd_DataFrame_rows, (pd_DataFrame_columns _ _ HF Hne), map_map.
  clear Hne. induction HF as [|id d new_ids data Hd _ IH]; [reflexivity|].
  simpl. f_equal; [|exact IH]. apply (record_with_id_row _ _ Hd).
Qed.

Lemma omap_dict_id data new_ids :
  Forall2 record_with_id new_ids data → omap dict_id data = new_ids.
Proof.
  induction 1 as [|id d new_ids data Hd _ IH]; [reflexivity|].
  change (match dict_id d with
          | Some y => y :: omap dict_id data
          | None => omap dict_id data
          end = id :: new_ids).
  by rewrite (record_with_id_dict_id _ _ Hd), IH.
Qed.

(** ** The generator as a whole *)

Lemma generation_pass_inr count w data w' :
  generation_pass count w = (inr data, w') →
  generation_loop (Z.to_nat count) [] w = (inr data, w').
Proof.
  unfold generation_pass, try_except.
  destruct (generation_loop _ _ _) as [[e|d] w1]; [|done].
  destruct (is_Exception _); discriminate.
Qed.

Lemma generation_pass_inl count w e w' :
  generation_pass count w = (inl e, w') →
  e = Exn RuntimeError ("Ошибка при генерации данных: " +:+ str uniqueness_exception)
        (Some uniqueness_exception)
  ∧ fsys w' = fsys w ∧ stdout w' = stdout w.
Proof.
  unfold generation_pass, try_except.
  destruct (generation_loop _ _ _) as [[e1|d] w1] eqn:Hloop; [|discriminate].
  apply generation_loop_inl in Hloop as (-> & Hfs & Hout).
  simpl. intros H. injection H as <- <-. auto.
Qed.

Lemma generate_data_pandas_inr count w df w' :
  generate_data_pandas count w = (inr df, w') →
  1 <= count
  ∧ columns df = record_labels
  ∧ length (rows df) = Z.to_nat count
  ∧ length (ids df) = Z.to_nat count
  ∧ Forall2 record_with_id (ids df) (to_dict_records df)
  ∧ allocated w w' (ids df)
  ∧ stdout w' = stdout w ++ generate_output count.
Proof.
  unfold generate_data_pandas, generate_output.
  destruct (Z.ltb_spec count 1) as [Hlt|Hge]; [discriminate|].
  intros H. split; [exact Hge|].
  apply bind_inr in H as ([] & w0 & Hadv & H).
  apply bind_inr in H as (data & w1 & Hpass & H).
  apply bind_inr in H as ([] & w2 & Hprint & H).
  injection H as <- <-. injection Hprint as <-.
  apply generation_pass_inr, generation_loop_inr in Hpass
    as (new & -> & Hlen & Hout & new_ids & Hrecs & Halloc).
  simpl app in *.
  assert (Hne : new ≠ []) by (intros ->; simpl in Hlen; lia).
  assert (Hids : ids (pd_DataFrame new) = new_ids).
  { unfold ids. rewrite (to_dict_records_pd_DataFrame _ _ Hrecs Hne).
    apply (omap_dict_id _ _ Hrecs). }
  rewrite Hids, (to_dict_records_pd_DataFrame _ _ Hrecs Hne).
  split; [apply (pd_DataFrame_columns _ _ Hrecs Hne)|].
  split; [rewrite pd_DataFrame_rows, length_map; exact Hlen|].
  split; [rewrite <- (Forall2_length _ _ _ Hrecs) in Hlen; exact Hlen|].
  split; [exact Hrecs|].
  assert (Hw0 : faker w0 = faker w ∧ fsys w0 = fsys w
                ∧ stdout w0 = stdout w ++ (if advisory_threshold <? count then [advisory] else [])).
  { destruct (advisory_threshold <? count); injection Hadv as <-; simpl;
      rewrite ?app_nil_r; auto. }
  destruct Hw0 as (Hfk & Hfs & Hout0). destruct Halloc as [HN HR HF HS HFS].
  split.
  - split; simpl; try assumption; rewrite <- ?Hfk; try assumption. congruence.
  - simpl. rewrite Hout, Hout0, <- app_assoc. reflexivity.
Qed.

Lemma generate_data_pandas_inl count w e w' :
  generate_data_pandas count w = (inl e, w') →
  (count < 1 ∧ exc_cls e = ValueError ∧ w' = w)
  ∨ (1 <= count
     ∧ e = Exn RuntimeError ("Ошибка при генерации данных: " +:+ str uniqueness_exception)
             (Some uniqueness_exception)
     ∧ fsys w' = fsys w
     ∧ stdout w' = stdout w ++ (if advisory_threshold <? count then [advisory] else [])).
Proof.
  unfold generate_data_pandas.
  destruct (Z.ltb_spec count 1) as [Hlt|Hge]; intros H.
  - left. injection H as <- <-. auto.
  - right. split; [exact Hge|].
    apply bind_inl in H as [H | ([] & w0 & Hadv & H)].
    { destruct (advisory_threshold <? count); discriminate. }
    assert (Hw0 : fsys w0 = fsys w
                  ∧ stdout w0 = stdout w ++ (if advisory_threshold <? count then [advisory] else [])).
    { destruct (advisory_threshold <? count); injection Hadv as <-; simpl;
        rewrite ?app_nil_r; auto. }
    destruct Hw0 as (Hfs & Hout).
    apply bind_inl in H as [H | (data & w1 & _ & H)]; [|discriminate].
    apply generation_pass_inl in H as (-> & Hfs' & Hout').
    repeat split; congruence.
Qed.

(** ** The capacity of the identifier range *)

Lemma elem_of_id_space z : z ∈ id_space ↔ in_id_range z.
Proof. unfold id_space, in_id_range. rewrite elem_of_seqZ. lia. Qed.

Lemma length_id_space : Z.of_nat (length id_space) = 900000.
Proof. unfold id_space. rewrite length_seqZ. lia. Qed.

Lemma size_in_id_range (X : gset Z) :
  (∀ x, x ∈ X → in_id_range x) → Z.of_nat (size X) <= 900000.
Proof.
  intros HX. rewrite <- length_id_space.
  rewrite <- (size_list_to_set (C := gset Z) id_space) by apply NoDup_seqZ.
  apply inj_le, subseteq_size. intros x Hx.
  apply elem_of_list_to_set, elem_of_id_space, HX, Hx.
Qed.

Lemma remaining_bounds fk : 0 <= remaining fk <= 900000.
Proof.
  unfold remaining.
  pose proof (size_in_id_range (filter in_id_range (seen fk))) as H.
  assert (Z.of_nat (size (filter in_id_range (seen fk))) <= 900000); [|lia].
  apply H. intros x Hx. apply elem_of_filter in Hx. tauto.
Qed.

(** Each allocated identifier uses up one value of the range. *)
Lemma allocated_remaining w w' new_ids :
  allocated w w' new_ids →
  remaining (faker w') = remaining (faker w) - Z.of_nat (length new_ids).
Proof.
  intros [HN HR HF HS _]. unfold remaining. rewrite HS, filter_union_L.
  assert (Heq : filter in_id_range (list_to_set new_ids : gset Z) = list_to_set new_ids).
  { apply set_eq. intros x. rewrite elem_of_filter, elem_of_list_to_set.
    rewrite Forall_forall in HR. naive_solver. }
  rewrite Heq, size_union.
  - rewrite size_list_to_set by exact HN. lia.
  - intros x Hx Hx'. apply elem_of_list_to_set in Hx.
    apply elem_of_filter in Hx' as [_ Hx']. rewrite Forall_forall in HF.
    exact (HF x Hx Hx').
  - apply _.
Qed.

(** A call with a valid count: the advisory if the count calls for it, the
    generation pass, and on success the table and the line with the elapsed
    time. *)
Lemma generate_data_pandas_run count w :
  1 <= count →
  generate_data_pandas count w
  = let w1 := if advisory_threshold <? count
              then set_stdout (stdout w ++ [advisory]) w else w in
    match generation_pass count w1 with
    | (inl e, w2) => (inl e, w2)
    | (inr data, w2) =>
        (inr (pd_DataFrame data), set_stdout (stdout w2 ++ [ElapsedLine]) w2)
    end.
Proof.
  intros Hge. unfold generate_data_pandas.
  destruct (Z.ltb_spec count 1) as [Hlt|_]; [lia|].
  rewrite bind_run.
  destruct (advisory_threshold <? count); simpl; rewrite bind_run;
    destruct (generation_pass count _) as [[e|data] w2]; reflexivity.
Qed.

Example generate_three_ids :
  ids (table_of (generate_data_pandas 3 sample_world)) = [100000; 100056; 100112].
Proof. vm_compute. reflexivity. Qed.

Lemma generate_data_pandas_capacity count w df w' :
  generate_data_pandas count w = (inr df, w') → 1 <= count <= 900000.
Proof.
  intros H.
  apply generate_data_pandas_inr in H as (Hge & _ & _ & Hids & _ & Halloc & _).
  apply allocated_remaining in Halloc.
  pose proof (remaining_bounds (faker w)). pose proof (remaining_bounds (faker w')).
  lia.
Qed.

(** A successful call is the loop run from the world of the call, followed
    by the line with the elapsed time. *)
Lemma generate_data_pandas_loop count w df w' :
  generate_data_pandas count w = (inr df, w') →
  ∃ data w2, generation_loop (Z.to_nat count) [] w = (inr data, w2)
             ∧ df = pd_DataFrame data ∧ w' = emit ElapsedLine w2.
Proof.
  intros H. pose proof (generate_data_pandas_capacity _ _ _ _ H) as [Hge Hle].
  rewrite (generate_data_pandas_run _ _ Hge) in H.
  destruct (Z.ltb_spec advisory_threshold count) as [Hlt|_];
    [unfold advisory_threshold in Hlt; lia|].
  simpl in H.
  destruct (generation_pass count w) as [[e|data] w2] eqn:Hpass; [discriminate|].
  injection H as <- <-. apply generation_pass_inr in Hpass. eauto.
Qed.

Lemma generate_data_pandas_of_loop count w data w2 :
  1 <= count <= 900000 →
  generation_loop (Z.to_nat count) [] w = (inr data, w2) →
  generate_data_pandas count w = (inr (pd_DataFrame data), emit ElapsedLine w2).
Proof.
  intros [Hge Hle] Hloop. rewrite (generate_data_pandas_run _ _ Hge).
  destruct (Z.ltb_spec advisory_threshold count) as [Hlt|_];
    [unfold advisory_threshold in Hlt; lia|].
  simpl. unfold generation_pass, try_except. rewrite Hloop. reflexivity.
Qed.

(** ** The loop produces the records in order *)

Lemma generation_loop_in_order n data w data' w' :
  generation_loop n data w = (inr data', w') →
  ∃ new, data' = data ++ new ∧ length new = n ∧ generated_in_order w new w'.
Proof.
  revert data w. induction n as [|n IH]; intros data w H; simpl in H.
  - injection H as <- <-. exists []. rewrite app_nil_r.
    repeat split. constructor.
  - apply bind_inr in H as (r & w1 & Hrec & H).
    apply IH in H as (new & -> & Hlen & Hnew).
    exists (r :: new). rewrite <- app_assoc. simpl.
    repeat split; [congruence|]. econstructor; eassumption.
Qed.

(** A loop that raises has produced fewer records than asked, in order, and
    raises in the iteration after the last of them. *)
Lemma generation_loop_inl_in_order n data w e w' :
  generation_loop n data w = (inl e, w') →
  ∃ new wk, generated_in_order w new wk ∧ (length new < n)%nat
            ∧ make_record wk = (inl e, w').
Proof.
  revert data w. induction n as [|n IH]; intros data w H; simpl in H; [discriminate|].
  apply bind_inl in H as [H | (r & w1 & Hrec & H)].
  - exists [], w. split; [constructor|]. split; [simpl; lia | exact H].
  - apply IH in H as (new & wk & Hnew & Hlen & Hfail).
    exists (r :: new), wk. split; [econstructor; eassumption|].
    split; [simpl; lia | exact Hfail].
Qed.

(** Records produced in order take their identifiers from the free part of
    the range, one each. *)
Lemma generated_in_order_allocated w data w' :
  generated_in_order w data w' →
  stdout w' = stdout w
  ∧ ∃ new_ids, Forall2 record_with_id new_ids data ∧ allocated w w' new_ids.
Proof.
  induction 1 as [w|w w1 w' r data Hrec _ (Hout' & new_ids & Hrecs & Halloc)].
  - split; [reflexivity|]. exists []. split; [constructor | apply allocated_nil].
  - apply make_record_inr in Hrec as (id & Hshape & Hr & Hfresh & Hseen & Hfs & Hout).
    split; [congruence|].
    exists (id :: new_ids). split; [constructor; assumption|].
    eapply allocated_cons; eassumption.
Qed.

(** ** Generation: count and distinct identifiers *)

(** C1: for every count >= 1 for which generation completes without error,
    the returned table has exactly [count] records, each with an identifier,
    and the identifiers are pairwise distinct. *)
Theorem generate_count_distinct (count : Z) (w w' : World) (df : DataFrame) :
  1 <= count →
  generate_data_pandas count w = (inr df, w') →
  length (rows df) = Z.to_nat count
  ∧ length (ids df) = Z.to_nat count
  ∧ NoDup (ids df).
Proof.
  intros _ H.
  apply generate_data_pandas_inr in H as (_ & _ & Hrows & Hids & _ & Halloc & _).
  repeat split; try assumption. apply (alloc_NoDup _ _ _ Halloc).
Qed.

Lemma generate_count_distinct_witness :
  let r := generate_data_pandas 3 sample_world in
  length (rows (table_of r)) = 3%nat
  ∧ length (ids (table_of r)) = 3%nat
  ∧ NoDup (ids (table_of r)).
Proof.
  intros r.
  apply (generate_count_distinct 3 sample_world r.2 (table_of r)).
  - lia.
  - vm_compute. reflexivity.
Defined.

(** ** Generation: invalid counts *)

(** C3: for every count < 1, the call raises [ValueError] and leaves the
    world as it was: no identifier is allocated, nothing is drawn, printed or
    written. *)
Theorem generate_rejects_nonpositive (count : Z) (w : World) :
  count < 1 →
  generate_data_pandas count w
  = (inl (Exn ValueError "Количество записей должно быть больше 0" None), w).
Proof.
  intros Hlt. unfold generate_data_pandas.
  destruct (Z.ltb_spec count 1) as [_|Hge]; [reflexivity | lia].
Qed.

Lemma generate_rejects_nonpositive_witness :
  generate_data_pandas 0 sample_world
  = (inl (Exn ValueError "Количество записей должно быть больше 0" None), sample_world)
  ∧ generate_data_pandas (-5) sample_world
    = (inl (Exn ValueError "Количество записей должно быть больше 0" None), sample_world).
Proof.
  split.
  - apply (generate_rejects_nonpositive 0 sample_world). lia.
  - apply (generate_rejects_nonpositive (-5) sample_world). lia.
Defined.

(** ** Generation: exhausting the identifier range *)

(** A range with fewer free identifiers than requested cannot serve the
    call. *)
Lemma generate_data_pandas_exhausted count w :
  remaining (faker w) < count →
  ∃ w', generate_data_pandas count w = (inl generation_error, w').
Proof.
  intros Hcount. pose proof (remaining_bounds (faker w)) as Hb.
  destruct (generate_data_pandas count w) as [[e|df] w'] eqn:H.
  - apply generate_data_pandas_inl in H as [(Hlt & _) | (_ & -> & _)]; [lia|].
    exists w'. reflexivity.
  - apply generate_data_pandas_inr in H as (_ & _ & _ & Hids & _ & Halloc & _).
    apply allocated_remaining in Halloc.
    pose proof (remaining_bounds (faker w')). lia.
Qed.

(** C2: when the requested count exceeds the number of identifiers of the
    range that are still free, the call returns no table: it raises a
    [RuntimeError] that wraps the allocator's [UniquenessException], whose
    text it embeds and which it keeps as its context. *)
Theorem generate_exhausted (count : Z) (w : World) :
  remaining (faker w) < count →
  ∃ w', generate_data_pandas count w = (inl generation_error, w')
        ∧ exc_cls generation_error = RuntimeError
        ∧ str generation_error
          = "Ошибка при генерации данных: " +:+ str uniqueness_exception
        ∧ exc_context generation_error = Some uniqueness_exception
        ∧ exc_cls uniqueness_exception = UniquenessException.
Proof.
  intros Hcount.
  destruct (generate_data_pandas_exhausted count w Hcount) as (w' & H).
  exists w'. repeat split. exact H.
Qed.

Lemma generate_exhausted_witness :
  ∃ w', generate_data_pandas 900001 sample_world = (inl generation_error, w')
        ∧ exc_cls generation_error = RuntimeError
        ∧ str generation_error
          = "Ошибка при генерации данных: " +:+ str uniqueness_exception
        ∧ exc_context generation_error = Some uniqueness_exception
        ∧ exc_cls uniqueness_exception = UniquenessException.
Proof.
  apply (generate_exhausted 900001 sample_world).
  vm_compute. reflexivity.
Defined.

(** ** Generation: the identifier range and the advisory threshold *)

(** C9: every identifier of a generated table lies between 100000 and 999999;
    the values the allocator draws from are exactly these, 900000 distinct
    ones, which is also the advisory threshold; and a call for more than
    900000 records raises. *)
Theorem id_range_capacity (count : Z) (w : World) :
  (∀ df w', generate_data_pandas count w = (inr df, w') →
            length (ids df) = length (rows df) ∧ Forall in_id_range (ids df))
  ∧ (∀ v, (∃ fk, (random_int 100000 999999 fk).1 = v) ↔ v ∈ id_space)
  ∧ NoDup id_space
  ∧ Z.of_nat (length id_space) = 900000
  ∧ advisory_threshold = Z.of_nat (length id_space)
  ∧ (900000 < count → ∃ e w', generate_data_pandas count w = (inl e, w')).
Proof.
  split; [|split; [|split; [|split; [|split]]]].
  - intros df w' H.
    apply generate_data_pandas_inr in H as (_ & _ & Hrows & Hids & _ & Halloc & _).
    split; [congruence | apply (alloc_range _ _ _ Halloc)].
  - intros v. rewrite elem_of_id_space. split.
    + intros [fk <-]. apply random_int_range. lia.
    + intros Hv.
      exists {| entropy := {| rand_int := fun _ => v - 100000;
                              rand_str := fun _ => "";
                              rand_date := fun _ => Date 0 0 0 |};
                cursor := 0; seen := ∅ |}.
      unfold random_int, in_id_range in *; simpl.
      rewrite Z.mod_small; lia.
  - apply NoDup_seqZ.
  - apply length_id_space.
  - rewrite length_id_space. reflexivity.
  - intros Hcount.
    destruct (generate_data_pandas_exhausted count w) as (w' & H).
    + pose proof (remaining_bounds (faker w)). lia.
    + eauto.
Qed.

Lemma id_range_capacity_witness :
  Forall in_id_range (ids (table_of (generate_data_pandas 3 sample_world)))
  ∧ ∃ e w', generate_data_pandas 900001 sample_world = (inl e, w').
Proof.
  split.
  - apply (proj1 (id_range_capacity 3 sample_world)
             (table_of (generate_data_pandas 3 sample_world))
             (generate_data_pandas 3 sample_world).2).
    vm_compute. reflexivity.
  - apply (id_range_capacity 900001 sample_world). lia.
Defined.

(** ** Generation: successive calls *)

(** C10: the set of identifiers handed out belongs to the module-level
    [fake] object, so a second call in the same process continues where the
    first one stopped: the identifiers of both tables are pairwise distinct,
    and each call takes its count off the free part of the range. *)
Theorem successive_calls_share_allocator (n1 n2 : Z) (w w1 w2 : World)
    (df1 df2 : DataFrame) :
  generate_data_pandas n1 w = (inr df1, w1) →
  generate_data_pandas n2 w1 = (inr df2, w2) →
  NoDup (ids df1 ++ ids df2)
  ∧ remaining (faker w1) = remaining (faker w) - n1
  ∧ remaining (faker w2) = remaining (faker w) - n1 - n2
  ∧ n1 + n2 <= 900000.
Proof.
  intros H1 H2.
  apply generate_data_pandas_inr in H1 as (Hn1 & _ & _ & Hlen1 & _ & Ha1 & _).
  apply generate_data_pandas_inr in H2 as (Hn2 & _ & _ & Hlen2 & _ & Ha2 & _).
  pose proof (allocated_remaining _ _ _ Ha1) as Hr1.
  pose proof (allocated_remaining _ _ _ Ha2) as Hr2.
  rewrite Hlen1 in Hr1. rewrite Hlen2 in Hr2.
  pose proof (remaining_bounds (faker w)). pose proof (remaining_bounds (faker w2)).
  split; [|lia].
  apply NoDup_app. split; [apply (alloc_NoDup _ _ _ Ha1)|].
  split; [|apply (alloc_NoDup _ _ _ Ha2)].
  intros x Hx1 Hx2.
  pose proof (alloc_fresh _ _ _ Ha2) as Hfresh. rewrite Forall_forall in Hfresh.
  apply (Hfresh x Hx2). rewrite (alloc_seen _ _ _ Ha1). set_solver.
Qed.

Lemma successive_calls_share_allocator_witness :
  let r1 := generate_data_pandas 2 sample_world in
  let r2 := generate_data_pandas 3 r1.2 in
  NoDup (ids (table_of r1) ++ ids (table_of r2))
  ∧ remaining (faker r1.2) = remaining (faker sample_world) - 2
  ∧ remaining (faker r2.2) = remaining (faker sample_world) - 2 - 3
  ∧ 2 + 3 <= 900000.
Proof.
  intros r1 r2.
  apply (successive_calls_share_allocator 2 3 sample_world r1.2 r2.2
           (table_of r1) (table_of r2)).
  - vm_compute. reflexivity.
  - vm_compute. reflexivity.
Defined.

(** ** Generation: the advisory *)

Lemma unique_loop_cursor attempts min max retval fk r fk' :
  unique_loop attempts min max retval fk = (r, fk') →
  (cursor fk <= cursor fk')%nat
  ∧ (retval = None → attempts ≠ O → cursor fk < cursor fk')%nat.
Proof.
  revert retval fk.
  induction attempts as [|n IH]; intros retval fk H; simpl in H.
  - injection H as <- <-. split; [lia | done].
  - destruct retval as [c|].
    + destruct (decide (c ∈ seen fk)).
      * apply IH in H as [H _]. simpl in H. split; [lia | done].
      * injection H as <- <-. simpl. split; [lia | done].
    + apply IH in H as [H _]. simpl in H. split; lia.
Qed.

(** Every iteration of the loop draws from the pseudo-random source. *)
Lemma make_record_cursor w r w' :
  make_record w = (r, w') → (cursor (faker w) < cursor (faker w'))%nat.
Proof.
  unfold make_record. rewrite bind_run. unfold unique_random_int.
  destruct (unique_loop _ _ _ _ _) as [[e|id] fk] eqn:Hloop;
    apply unique_loop_cursor in Hloop as [_ Hlt];
    specialize (Hlt eq_refl ltac:(done));
    intros H; injection H as _ <-; simpl; lia.
Qed.

Lemma generation_loop_cursor n data w r w' :
  generation_loop (S n) data w = (r, w') →
  (cursor (faker w) < cursor (faker w'))%nat.
Proof.
  revert data w. induction n as [|n IH]; intros data w H.
  - simpl in H. rewrite bind_run in H.
    destruct (make_record w) as [[e|d] w1] eqn:Hrec;
      apply make_record_cursor in Hrec; injection H as _ <-; exact Hrec.
  - change (generation_loop (S (S n)) data w)
      with ((r ← make_record; generation_loop (S n) (data ++ [r])) w) in H.
    rewrite bind_run in H.
    destruct (make_record w) as [[e|d] w1] eqn:Hrec;
      apply make_record_cursor in Hrec.
    + injection H as _ <-. exact Hrec.
    + apply IH in H. lia.
Qed.

(** C8: a call with a count above 900000 prints the advisory and then runs
    the generation pass, which draws from the pseudo-random source and whose
    outcome is the outcome of the call; a call with a count of at most 900000
    prints no advisory. *)
Theorem advisory_policy (count : Z) (w : World) :
  (advisory_threshold < count →
     ∃ r w2,
       generation_pass count (set_stdout (stdout w ++ [advisory]) w) = (r, w2)
       ∧ stdout w2 = stdout w ++ [advisory]
       ∧ (cursor (faker w) < cursor (faker w2))%nat
       ∧ r = inl generation_error
       ∧ generate_data_pandas count w = (inl generation_error, w2))
  ∧ (count <= advisory_threshold →
     ∃ out, stdout (generate_data_pandas count w).2 = stdout w ++ out
            ∧ advisory ∉ out).
Proof.
  split; intros Hcount.
  - assert (Hge : 1 <= count) by (unfold advisory_threshold in Hcount; lia).
    pose proof (generate_data_pandas_run count w Hge) as Hrun.
    destruct (Z.ltb_spec advisory_threshold count) as [_|Hle]; [|lia].
    simpl in Hrun.
    destruct (generate_data_pandas_exhausted count w) as (w' & Hgen).
    { pose proof (remaining_bounds (faker w)). unfold advisory_threshold in Hcount. lia. }
    destruct (generation_pass count _) as [[e|data] w2] eqn:Hpass;
      rewrite Hgen in Hrun; [|discriminate].
    injection Hrun as He Hw. subst e w'.
    exists (inl generation_error), w2.
    pose proof Hpass as Hinl. apply generation_pass_inl in Hinl as (_ & _ & Hout).
    assert (Hcur : (cursor (faker w) < cursor (faker w2))%nat).
    { unfold generation_pass, try_except in Hpass.
      destruct (Z.to_nat count) as [|n] eqn:Hn; [lia|].
      destruct (generation_loop (S n) [] _) as [[e1|d] w1] eqn:Hloop; [|discriminate].
      apply generation_loop_cursor in Hloop. simpl in Hloop.
      assert (w1 = w2) as <-; [|exact Hloop].
      destruct (is_Exception (exc_cls e1)); unfold raise in Hpass; congruence. }
    repeat split; assumption.
  - destruct (generate_data_pandas count w) as [[e|df] w'] eqn:H; simpl.
    + apply generate_data_pandas_inl in H as [(_ & _ & ->) | (_ & _ & _ & Hout)].
      { exists []. split; [by rewrite app_nil_r | apply not_elem_of_nil]. }
      destruct (Z.ltb_spec advisory_threshold count) as [Hlt|_]; [lia|].
      exists []. split; [exact Hout | apply not_elem_of_nil].
    + apply generate_data_pandas_inr in H as (_ & _ & _ & _ & _ & _ & Hout).
      unfold generate_output in Hout.
      destruct (Z.ltb_spec advisory_threshold count) as [Hlt|_]; [lia|].
      exists [ElapsedLine]. split; [exact Hout|].
      intros Hin. apply list_elem_of_singleton in Hin. discriminate.
Qed.

Lemma advisory_policy_witness :
  (∃ r w2,
     generation_pass 900001 (set_stdout (stdout sample_world ++ [advisory]) sample_world)
     = (r, w2)
     ∧ stdout w2 = stdout sample_world ++ [advisory]
     ∧ (cursor (faker sample_world) < cursor (faker w2))%nat
     ∧ r = inl generation_error
     ∧ generate_data_pandas 900001 sample_world = (inl generation_error, w2))
  ∧ ∃ out, stdout (generate_data_pandas 3 sample_world).2 = stdout sample_world ++ out
           ∧ advisory ∉ out.
Proof.
  split.
  - apply (advisory_policy 900001 sample_world). reflexivity.
  - apply (advisory_policy 3 sample_world). discriminate.
Defined.

(** ** Paths *)

Lemma append_inj_l (s a b : string) : s +:+ a = s +:+ b → a = b.
Proof. induction s as [|c s IH]; simpl; intros H; [exact H|]. injection H as H. auto. Qed.

Lemma paths_distinct base :
  csv_path base ≠ json_path base ∧ csv_path base ≠ txt_path base
  ∧ json_path base ≠ txt_path base.
Proof.
  unfold csv_path, json_path, txt_path.
  repeat split; intros H; apply append_inj_l in H; discriminate.
Qed.

(** A suffix without separator does not change the directory. *)
Lemma head_part_app p ext : head_part ext = "" → head_part (p +:+ ext) = head_part p.
Proof.
  intros Hext. induction p as [|c p IH]; simpl; [exact Hext|]. by rewrite IH.
Qed.

Lemma dirname_app p ext : head_part ext = "" → dirname (p +:+ ext) = dirname p.
Proof. intros Hext. unfold dirname. by rewrite head_part_app. Qed.

Lemma dirname_paths base :
  dirname (csv_path base) = dirname base ∧ dirname (json_path base) = dirname base
  ∧ dirname (txt_path base) = dirname base.
Proof. repeat split; apply dirname_app; reflexivity. Qed.

(** ** What the steps of the exporter leave alone *)

Lemma fs_frame_refl w : fs_frame w w.
Proof. split; reflexivity. Qed.

Lemma fs_frame_trans w1 w2 w3 : fs_frame w1 w2 → fs_frame w2 w3 → fs_frame w1 w3.
Proof.
  intros [F1 D1 K1] [F2 D2 K2]. split; [congruence | set_solver | congruence].
Qed.

Lemma touches_only_bind {A B} ps (m : M A) (k : A → M B) :
  touches_only ps m → (∀ a, touches_only ps (k a)) → touches_only ps (m ≫= k).
Proof.
  intros Hm Hk w r w'. rewrite bind_run.
  destruct (m w) as [[e|a] w1] eqn:E; intros H.
  - injection H as <- <-. exact (Hm _ _ _ E).
  - destruct (Hm _ _ _ E) as [F1 P1]. destruct (Hk a _ _ _ H) as [F2 P2].
    split; [eapply fs_frame_trans; eassumption|].
    intros p Hp. rewrite (P2 p Hp). exact (P1 p Hp).
Qed.

Lemma touches_only_mono {A} ps ps' (m : M A) :
  ps ⊆ ps' → touches_only ps m → touches_only ps' m.
Proof.
  intros Hsub Hm w r w' H. destruct (Hm _ _ _ H) as [F P].
  split; [exact F|]. intros p Hp. apply P. set_solver.
Qed.

Lemma touches_only_ret {A} (a : A) : touches_only [] (mret a).
Proof. intros w r w' H. injection H as <- <-. split; [apply fs_frame_refl | done]. Qed.

Lemma touches_only_print l : touches_only [] (print l).
Proof. intros w r w' H. injection H as <- <-. split; [split|]; done. Qed.

Lemma touches_only_serialize p : touches_only [] (serialize p).
Proof.
  intros w r w'. unfold serialize.
  destruct (fault _ _); intros H; injection H as <- <-;
    (split; [apply fs_frame_refl | done]).
Qed.

Lemma touches_only_open_w p : touches_only [p] (open_w p).
Proof.
  intros w r w'. unfold open_w.
  destruct (fault _ _); [|destruct (dir_exists _ _)]; intros H; injection H as <- <-;
    try (split; [apply fs_frame_refl | done]).
  split; [split; done|]. intros q Hq. simpl.
  apply lookup_insert_ne. set_solver.
Qed.

Lemma touches_only_write p c : touches_only [p] (write p c).
Proof.
  intros w r w'. unfold write.
  destruct (fault _ _); intros H; injection H as <- <-;
    try (split; [apply fs_frame_refl | done]).
  split; [split; done|]. intros q Hq. simpl.
  apply lookup_insert_ne. set_solver.
Qed.

Lemma touches_only_makedirs name exist_ok : touches_only [] (makedirs name exist_ok).
Proof.
  intros w r w'. unfold makedirs.
  destruct (fault _ _); [|destruct (_ || _); [|destruct (stopped_by_file _ _ _)]];
    intros H; injection H as <- <-;
    try (split; [apply fs_frame_refl | done]).
  split; [split; simpl; try done; set_solver | done].
Qed.

Lemma touches_only_raise {A} (e : exn) : touches_only [] (raise (A := A) e).
Proof. intros w r w' H. injection H as <- <-. split; [apply fs_frame_refl | done]. Qed.

Create HintDb export discriminated.

#[local] Hint Resolve touches_only_ret touches_only_print touches_only_serialize
  touches_only_open_w touches_only_write touches_only_makedirs : export.

(** Steps in sequence touch the files that they touch one by one. *)
Ltac touches :=
  repeat first
    [ apply touches_only_bind; [|intros ?]
    | eapply touches_only_mono; [|solve [eauto with export]]; set_solver ].

Lemma touches_only_ensure_dir base : touches_only [] (ensure_dir base).
Proof. unfold ensure_dir. destruct (String.eqb _ _); eauto with export. Qed.

Lemma touches_only_save_csv df base : touches_only [csv_path base] (save_csv df base).
Proof. unfold save_csv, to_csv. touches. Qed.

Lemma touches_only_save_json df base : touches_only [json_path base] (save_json df base).
Proof.
  unfold save_json, to_json. destruct (bool_decide _); [touches|].
  apply touches_only_bind; [|intros ?].
  - eapply touches_only_mono; [|apply touches_only_raise]. set_solver.
  - eapply touches_only_mono; [|apply touches_only_print]. set_solver.
Qed.

Lemma touches_only_save_txt df base : touches_only [txt_path base] (save_txt df base).
Proof. unfold save_txt. touches. Qed.

Lemma touches_only_report_saved base : touches_only [] (report_saved base).
Proof. unfold report_saved. eauto with export. Qed.

(** ** The table of a generation run, seen by the exporter *)

Lemma record_with_id_values id d :
  record_with_id id d →
  map (fun c => default VNaN (dict_get c d)) record_labels = d.*2.
Proof. intros (?&?&?&?&?&?&?&->). reflexivity. Qed.

Lemma pd_DataFrame_table data new_ids :
  Forall2 record_with_id new_ids data → data ≠ [] →
  table_of_records (pd_DataFrame data) data.
Proof.
  intros HF Hne. split; [exact Hne|].
  split; [apply (pd_DataFrame_columns _ _ HF Hne)|].
  split; [|apply (to_dict_records_pd_DataFrame _ _ HF Hne)].
  rewrite pd_DataFrame_rows, (pd_DataFrame_columns _ _ HF Hne).
  clear Hne. induction HF as [|id d new_ids data Hd _ IH]; [reflexivity|].
  simpl. f_equal; [apply (record_with_id_values _ _ Hd) | exact IH].
Qed.

(** The loop appends: the record of the last iteration is the last one. *)
Lemma generation_loop_snoc n data w :
  generation_loop (S n) data w
  = (d ← generation_loop n data; r ← make_record; mret (d ++ [r])) w.
Proof.
  revert data w. induction n as [|n IH]; intros data w.
  - simpl generation_loop. unfold mbind, M_bind, bind, mret, M_ret.
    destruct (make_record w) as [[e|r] w1]; reflexivity.
  - change (generation_loop (S (S n)) data w)
      with ((r ← make_record; generation_loop (S n) (data ++ [r])) w).
    rewrite bind_run.
    change ((d ← generation_loop (S n) data; r ← make_record; mret (d ++ [r])) w)
      with ((d ← (r0 ← make_record; generation_loop n (data ++ [r0]));
             r ← make_record; mret (d ++ [r])) w).
    rewrite (bind_run (r0 ← make_record; generation_loop n (data ++ [r0]))).
    rewrite (bind_run make_record).
    destruct (make_record w) as [[e|r] w1]; [reflexivity|].
    rewrite IH, bind_run. reflexivity.
Qed.

(** ** The rows of the exported files *)

Lemma omap_records {B C} (h : dict → B) (g : B → option C) (k : Z → C) ds ns :
  Forall2 record_with_id ns ds →
  (∀ id d, record_with_id id d → g (h d) = Some (k id)) →
  omap g (map h ds) = k <$> ns.
Proof.
  intros HF Hg. induction HF as [|id d ns ds Hd _ IH]; [reflexivity|].
  change (omap g (map h (d :: ds)))
    with (match g (h d) with
          | Some y => y :: omap g (map h ds)
          | None => omap g (map h ds)
          end).
  by rewrite (Hg _ _ Hd), IH.
Qed.

Section ExportedRows.
Context (df : DataFrame) (data : list dict) (new_ids : list Z).
Hypothesis Htable : table_of_records df data.
Hypothesis Hrecords : Forall2 record_with_id new_ids data.

Lemma csv_table_fields enc :
  file_fields (CsvFile enc (csv_table df)) = Some record_labels.
Proof. destruct Htable as (_ & Hc & _). simpl. by rewrite Hc. Qed.

Lemma txt_table_fields enc :
  file_fields (TxtFile enc (txt_table df)) = Some record_labels.
Proof. destruct Htable as (_ & Hc & _). simpl. by rewrite Hc. Qed.

Lemma json_records_fields force_ascii indent :
  file_fields (JsonFile force_ascii indent (json_records df)) = Some record_labels.
Proof.
  destruct Htable as (Hne & Hc & Hr & _). unfold json_records. rewrite Hc, Hr.
  assert (Hall : ∀ ds ns, Forall2 record_with_id ns ds →
            forallb (keys_agree record_labels)
              (map (fun r => JObj (zip record_labels (map json_value r)))
                 (map (fun d : dict => d.*2) ds)) = true).
  { induction 1 as [|id d ns ds Hd _ IH]; [reflexivity|].
    cbn [map forallb]. rewrite IH, andb_true_r.
    destruct Hd as (?&?&?&?&?&?&?&->). reflexivity. }
  destruct Hrecords as [|id d ns ds Hd Hds]; [done|].
  assert (Hk : (zip record_labels (map json_value d.*2)).*1 = record_labels)
    by (destruct Hd as (?&?&?&?&?&?&?&->); reflexivity).
  cbn [map file_fields]. rewrite Hk.
  pose proof (Hall _ _ Hds) as Ha. unfold dict in Ha. by rewrite Ha.
Qed.

Lemma csv_table_ids enc :
  file_ids (CsvFile enc (csv_table df)) = Some (decimal_Z <$> new_ids).
Proof.
  destruct Htable as (_ & _ & Hr & _). unfold csv_table. rewrite Hr, map_map.
  cbn [file_ids]. f_equal. apply omap_records; [exact Hrecords|].
  intros id d (?&?&?&?&?&?&?&->). reflexivity.
Qed.

Lemma txt_table_ids enc :
  file_ids (TxtFile enc (txt_table df)) = Some (decimal_Z <$> new_ids).
Proof.
  destruct Htable as (_ & _ & Hr & _). unfold txt_table. rewrite Hr, map_map.
  cbn [file_ids]. f_equal. apply omap_records; [exact Hrecords|].
  intros id d (?&?&?&?&?&?&?&->). reflexivity.
Qed.

Lemma json_records_ids force_ascii indent :
  file_ids (JsonFile force_ascii indent (json_records df))
  = Some (decimal_Z <$> new_ids).
Proof.
  destruct Htable as (_ & Hc & Hr & _). unfold json_records.
  rewrite Hc, Hr, map_map. cbn [file_ids]. do 2 f_equal.
  rewrite <- (list_fmap_id new_ids) at 1. apply omap_records; [exact Hrecords|].
  intros id d (?&?&?&?&?&?&?&->). reflexivity.
Qed.
End ExportedRows.

(** ** What each step of the exporter writes *)

Lemma write_inr p c w u w' : write p c w = (inr u, w') → w' = put_file p c w.
Proof. unfold write. destruct (fault _ _); intros H; congruence. Qed.

Lemma print_inr l w u w' : print l w = (inr u, w') → w' = emit l w.
Proof. unfold print. intros H. congruence. Qed.

Ltac bind_steps H :=
  repeat match type of H with
         | (_ ≫= _) _ = (inr _, _) =>
             let a := fresh "a" in let w := fresh "w" in let H1 := fresh "Hstep" in
             apply bind_inr in H as (a & w & H1 & H)
         end.

Lemma save_csv_inr df base w u w' :
  save_csv df base w = (inr u, w') →
  files (fsys w') !! csv_path base = Some (CsvFile "utf-8-sig" (csv_table df)).
Proof.
  unfold save_csv, to_csv. intros H. bind_steps H.
  apply print_inr in H as ->. bind_steps Hstep.
  apply write_inr in Hstep as ->. simpl. apply lookup_insert_eq.
Qed.

Lemma save_json_inr df base w u w' :
  save_json df base w = (inr u, w') →
  files (fsys w') !! json_path base = Some (JsonFile false 4 (json_records df)).
Proof.
  unfold save_json, to_json. intros H. bind_steps H.
  apply print_inr in H as ->.
  destruct (bool_decide _); [|discriminate]. bind_steps Hstep.
  apply write_inr in Hstep as ->. simpl. apply lookup_insert_eq.
Qed.

Lemma save_txt_inr df base w u w' :
  save_txt df base w = (inr u, w') →
  files (fsys w') !! txt_path base = Some (TxtFile "utf-8" (txt_table df)).
Proof.
  unfold save_txt. intros H. bind_steps H.
  apply print_inr in H as ->.
  apply write_inr in Hstep1 as ->. simpl. apply lookup_insert_eq.
Qed.

Lemma save_all_formats_inr df base w u w' :
  save_all_formats df base w = (inr u, w') → save_steps df base w = (inr u, w').
Proof.
  unfold save_all_formats, try_except.
  destruct (save_steps df base w) as [[e|a] w1]; [|done].
  unfold save_handler. destruct (is_OSError _); [discriminate|].
  destruct (is_Exception _); discriminate.
Qed.

(** After a successful export the three files hold the three renderings of
    the table. *)
Lemma save_all_formats_files df base w u w' :
  save_all_formats df base w = (inr u, w') →
  files (fsys w') !! csv_path base = Some (CsvFile "utf-8-sig" (csv_table df))
  ∧ files (fsys w') !! json_path base = Some (JsonFile false 4 (json_records df))
  ∧ files (fsys w') !! txt_path base = Some (TxtFile "utf-8" (txt_table df)).
Proof.
  intros H. apply save_all_formats_inr in H. unfold save_steps in H.
  apply bind_inr in H as (? & w0 & _ & H).
  apply bind_inr in H as (? & w1 & Hcsv & H).
  apply bind_inr in H as (? & w2 & Hjson & H).
  apply bind_inr in H as (? & w3 & Htxt & H).
  destruct (paths_distinct base) as (Hcj & Hct & Hjt).
  destruct (touches_only_save_json _ _ _ _ _ Hjson) as [_ Pj].
  destruct (touches_only_save_txt _ _ _ _ _ Htxt) as [_ Pt].
  destruct (touches_only_report_saved _ _ _ _ H) as [_ Pr].
  apply save_csv_inr in Hcsv. apply save_json_inr in Hjson. apply save_txt_inr in Htxt.
  repeat split.
  - rewrite Pr, Pt, Pj by set_solver. exact Hcsv.
  - rewrite Pr, Pt by set_solver. exact Hjson.
  - rewrite Pr by set_solver. exact Htxt.
Qed.

(** ** Export: field order and record order *)

Lemma map_records_ext {B} (f g : dict → B) ds ns :
  Forall2 record_with_id ns ds →
  (∀ id d, record_with_id id d → f d = g d) →
  map f ds = map g ds.
Proof.
  intros HF Hfg. induction HF as [|id d ns ds Hd _ IH]; [reflexivity|].
  simpl. by rewrite (Hfg _ _ Hd), IH.
Qed.

(** C4: the records of a generated table were produced one after the other
    by the loop, from the world of the call; a successful export of the table
    writes three files that all give the fields in the order of the data
    model and the records in that order of production. *)
Theorem export_field_and_record_order (count : Z) (w w1 v v' : World)
    (df : DataFrame) (base_name : string) :
  generate_data_pandas count w = (inr df, w1) →
  save_all_formats df base_name v = (inr tt, v') →
  ∃ data w2 csv json txt,
    generated_in_order w data w2
    ∧ w1 = emit ElapsedLine w2
    ∧ length data = Z.to_nat count
    ∧ Forall (fun d : dict => d.*1 = label <$> record_field_order) data
    ∧ files (fsys v') !! csv_path base_name = Some csv
    ∧ files (fsys v') !! json_path base_name = Some json
    ∧ files (fsys v') !! txt_path base_name = Some txt
    ∧ csv = CsvFile "utf-8-sig"
              ((label <$> record_field_order)
                 :: map (fun d : dict => csv_cell <$> d.*2) data)
    ∧ json = JsonFile false 4 (JArr (map json_object data))
    ∧ txt = TxtFile "utf-8"
              ((label <$> record_field_order)
                 :: map (fun d : dict => txt_cell <$> d.*2) data)
    ∧ file_fields csv = Some (label <$> record_field_order)
    ∧ file_fields json = Some (label <$> record_field_order)
    ∧ file_fields txt = Some (label <$> record_field_order)
    ∧ file_ids csv = Some (decimal_Z <$> omap dict_id data)
    ∧ file_ids json = Some (decimal_Z <$> omap dict_id data)
    ∧ file_ids txt = Some (decimal_Z <$> omap dict_id data).
Proof.
  intros Hgen Hsave.
  pose proof (generate_data_pandas_capacity _ _ _ _ Hgen) as [Hge _].
  apply generate_data_pandas_loop in Hgen as (data & w2 & Hloop & -> & ->).
  pose proof (generation_loop_in_order _ _ _ _ _ Hloop) as (new & Heq & Hlen & Hord).
  simpl in Heq. subst new.
  pose proof (generated_in_order_allocated _ _ _ Hord) as (_ & new_ids & Hrecs & _).
  assert (Hne : data ≠ []) by (intros ->; simpl in Hlen; lia).
  pose proof (pd_DataFrame_table _ _ Hrecs Hne) as Htab.
  pose proof Htab as (_ & Hc & Hr & _).
  apply save_all_formats_files in Hsave as (Hcsv & Hjson & Htxt).
  change (label <$> record_field_order) with record_labels.
  assert (Hids : omap dict_id data = new_ids) by apply (omap_dict_id _ _ Hrecs).
  assert (Ecsv : csv_table (pd_DataFrame data)
                 = record_labels :: map (fun d : dict => csv_cell <$> d.*2) data).
  { unfold csv_table. by rewrite Hc, Hr, map_map. }
  assert (Etxt : txt_table (pd_DataFrame data)
                 = record_labels :: map (fun d : dict => txt_cell <$> d.*2) data).
  { unfold txt_table. by rewrite Hc, Hr, map_map. }
  assert (Ejson : json_records (pd_DataFrame data) = JArr (map json_object data)).
  { unfold json_records. rewrite Hc, Hr, map_map. f_equal.
    apply (map_records_ext _ _ _ _ Hrecs).
    intros id d (?&?&?&?&?&?&?&->). reflexivity. }
  exists data, w2, (CsvFile "utf-8-sig" (csv_table (pd_DataFrame data))),
    (JsonFile false 4 (json_records (pd_DataFrame data))),
    (TxtFile "utf-8" (txt_table (pd_DataFrame data))).
  split; [exact Hord|]. split; [reflexivity|]. split; [exact Hlen|].
  split.
  { clear -Hrecs. induction Hrecs as [|id d ns ds Hd _ IH]; constructor; [|exact IH].
    apply (record_with_id_keys _ _ Hd). }
  split; [exact Hcsv|]. split; [exact Hjson|]. split; [exact Htxt|].
  split; [by rewrite Ecsv|]. split; [by rewrite Ejson|]. split; [by rewrite Etxt|].
  rewrite Hids.
  split; [eapply csv_table_fields, Htab|].
  split; [eapply json_records_fields; [exact Htab | exact Hrecs]|].
  split; [eapply txt_table_fields, Htab|].
  split; [eapply csv_table_ids; eassumption|].
  split; [eapply json_records_ids; eassumption | eapply txt_table_ids; eassumption].
Qed.

Lemma export_field_and_record_order_witness :
  let r := generate_data_pandas 3 sample_world in
  let s := save_all_formats (table_of r) "out/sample" r.2 in
  ∃ data w2 csv json txt,
    generated_in_order sample_world data w2
    ∧ r.2 = emit ElapsedLine w2
    ∧ length data = Z.to_nat 3
    ∧ files (fsys s.2) !! "out/sample.csv" = Some csv
    ∧ files (fsys s.2) !! "out/sample.json" = Some json
    ∧ files (fsys s.2) !! "out/sample.txt" = Some txt
    ∧ file_fields csv = Some (label <$> record_field_order)
    ∧ file_fields json = Some (label <$> record_field_order)
    ∧ file_fields txt = Some (label <$> record_field_order)
    ∧ file_ids csv = Some (decimal_Z <$> omap dict_id data)
    ∧ file_ids json = file_ids csv ∧ file_ids txt = file_ids csv.
Proof.
  intros r s.
  destruct (export_field_and_record_order 3 sample_world r.2 r.2 s.2
              (table_of r) "out/sample")
    as (data & w2 & csv & json & txt & Hord & Hw & Hlen & _ & Hc & Hj & Ht
        & _ & _ & _ & Fc & Fj & Ft & Ic & Ij & It).
  - vm_compute. reflexivity.
  - vm_compute. reflexivity.
  - exists data, w2, csv, json, txt. rewrite Ij, It, Ic. repeat split; assumption.
Defined.

(** ** Export: failures *)

Lemma save_all_formats_inl df base w e w' :
  save_all_formats df base w = (inl e, w') →
  ∃ e0, save_steps df base w = (inl e0, w') ∧ save_handler e0 w' = (inl e, w').
Proof.
  unfold save_all_formats, try_except.
  destruct (save_steps df base w) as [[e0|a] w1]; [|discriminate].
  intros H. exists e0.
  assert (w1 = w') as ->; [|split; [reflexivity | exact H]].
  unfold save_handler, raise in H.
  destruct (is_OSError _); [congruence|]. destruct (is_Exception _); congruence.
Qed.

Lemma touches_only_save_steps df base :
  touches_only [csv_path base; json_path base; txt_path base] (save_steps df base).
Proof.
  unfold save_steps.
  apply touches_only_bind;
    [eapply touches_only_mono; [|apply touches_only_ensure_dir]; set_solver | intros _].
  apply touches_only_bind;
    [eapply touches_only_mono; [|apply touches_only_save_csv]; set_solver | intros _].
  apply touches_only_bind;
    [eapply touches_only_mono; [|apply touches_only_save_json]; set_solver | intros _].
  apply touches_only_bind;
    [eapply touches_only_mono; [|apply touches_only_save_txt]; set_solver | intros _].
  eapply touches_only_mono; [|apply touches_only_report_saved]. set_solver.
Qed.

(** C5: an export that raises rolls nothing back.  If the CSV step had
    completed, the CSV file still holds the complete table; if the JSON step
    had completed as well, so does the JSON file; the directories that
    existed or were created are still there, and no other file was touched. *)
Theorem export_no_rollback (df : DataFrame) (base_name : string)
    (w w' : World) (e : exn) :
  save_all_formats df base_name w = (inl e, w') →
  (∀ w1, (ensure_dir base_name;; save_csv df base_name) w = (inr tt, w1) →
         files (fsys w') !! csv_path base_name
         = Some (CsvFile "utf-8-sig" (csv_table df)))
  ∧ (∀ w2, (ensure_dir base_name;; save_csv df base_name;;
            save_json df base_name) w = (inr tt, w2) →
           files (fsys w') !! json_path base_name
           = Some (JsonFile false 4 (json_records df)))
  ∧ dirs (fsys w) ⊆ dirs (fsys w')
  ∧ (∀ p, p ∉ [csv_path base_name; json_path base_name; txt_path base_name] →
          files (fsys w') !! p = files (fsys w) !! p).
Proof.
  intros H. apply save_all_formats_inl in H as (e0 & Hsteps & _).
  destruct (paths_distinct base_name) as (Hcj & Hct & Hjt).
  split; [|split; [|split]].
  - intros w1 Hpre.
    apply bind_inr in Hpre as (? & w0 & Hdir & Hcsv).
    unfold save_steps in Hsteps.
    rewrite bind_run, Hdir, bind_run, Hcsv in Hsteps.
    assert (Hrest : touches_only [json_path base_name; txt_path base_name]
              (save_json df base_name;; save_txt df base_name;;
               report_saved base_name)).
    { apply touches_only_bind;
        [eapply touches_only_mono; [|apply touches_only_save_json]; set_solver
        | intros _].
      apply touches_only_bind;
        [eapply touches_only_mono; [|apply touches_only_save_txt]; set_solver
        | intros _].
      eapply touches_only_mono; [|apply touches_only_report_saved]. set_solver. }
    destruct (Hrest _ _ _ Hsteps) as [_ P]. rewrite P by set_solver.
    eapply save_csv_inr, Hcsv.
  - intros w2 Hpre.
    apply bind_inr in Hpre as (? & w0 & Hdir & Hpre).
    apply bind_inr in Hpre as (? & w1 & Hcsv & Hjson).
    unfold save_steps in Hsteps.
    rewrite bind_run, Hdir, bind_run, Hcsv, bind_run, Hjson in Hsteps.
    assert (Hrest : touches_only [txt_path base_name]
              (save_txt df base_name;; report_saved base_name)).
    { apply touches_only_bind; [apply touches_only_save_txt | intros _].
      eapply touches_only_mono; [|apply touches_only_report_saved]. set_solver. }
    destruct (Hrest _ _ _ Hsteps) as [_ P]. rewrite P by set_solver.
    eapply save_json_inr, Hjson.
  - destruct (touches_only_save_steps _ _ _ _ _ Hsteps) as [[_ D _] _]. exact D.
  - destruct (touches_only_save_steps _ _ _ _ _ Hsteps) as [_ P]. exact P.
Qed.

Lemma export_no_rollback_witness :
  let w := with_fault (refuse_write "out/sample.json" disk_full) sample_world in
  let s := save_all_formats sample_table "out/sample" w in
  s.1 = inl (Exn OSError (storage_prefix +:+ str disk_full) (Some disk_full))
  ∧ files (fsys s.2) !! "out/sample.csv"
    = Some (CsvFile "utf-8-sig" (csv_table sample_table))
  ∧ files (fsys s.2) !! "out/sample.json" = Some Partial.
Proof.
  intros w s.
  split; [vm_compute; reflexivity|].
  split; [|vm_compute; reflexivity].
  refine (proj1 (export_no_rollback sample_table "out/sample" w s.2
                   (Exn OSError (storage_prefix +:+ str disk_full) (Some disk_full)) _)
            ((ensure_dir "out/sample";; save_csv sample_table "out/sample") w).2 _).
  - vm_compute. reflexivity.
  - vm_compute. reflexivity.
Defined.

(** ** Export: the classes of the errors *)

Lemma str_contains_app_l (s p t : string) :
  str_contains s t = true → str_contains s (p +:+ t) = true.
Proof.
  intros H. induction p as [|a p IH]; [exact H|].
  change (String a p +:+ t) with (String a (p +:+ t)).
  cbn [str_contains]. rewrite IH. apply orb_true_r.
Qed.

(** C7, as the code has it: an [OSError] raised by a step of the export is
    raised again as a new [OSError] whose text is a fixed prefix followed by
    the text of the original error, which becomes its context; any other
    [Exception] is wrapped in the same way in a [RuntimeError]; an exception
    that is no [Exception] passes through.  The text of a wrapping error
    contains every string that the text of the original error contains. *)
Theorem export_error_classes (df : DataFrame) (base_name : string)
    (w w' : World) (e : exn) :
  save_all_formats df base_name w = (inl e, w') →
  ∃ e0, save_steps df base_name w = (inl e0, w')
    ∧ ((is_OSError (exc_cls e0) = true
        ∧ e = Exn OSError ("Ошибка при сохранении файлов: " +:+ str e0) (Some e0)
        ∧ ∀ s, str_contains s (str e0) = true → str_contains s (str e) = true)
       ∨ (is_OSError (exc_cls e0) = false ∧ is_Exception (exc_cls e0) = true
          ∧ e = Exn RuntimeError ("Неожиданная ошибка при сохранении: " +:+ str e0)
                  (Some e0)
          ∧ ∀ s, str_contains s (str e0) = true → str_contains s (str e) = true)
       ∨ (is_Exception (exc_cls e0) = false ∧ e = e0)).
Proof.
  intros H. apply save_all_formats_inl in H as (e0 & Hsteps & Hh).
  exists e0. split; [exact Hsteps|].
  unfold save_handler, raise in Hh.
  destruct (is_OSError (exc_cls e0)) eqn:HOS.
  - left. split; [reflexivity|]. simpl in Hh. injection Hh as <-.
    split; [reflexivity|]. intros s Hs. apply str_contains_app_l, Hs.
  - destruct (is_Exception (exc_cls e0)) eqn:HE; simpl in Hh.
    + right; left. split; [reflexivity|]. split; [reflexivity|].
      injection Hh as <-. split; [reflexivity|].
      intros s Hs. apply str_contains_app_l, Hs.
    + right; right. split; [reflexivity|]. congruence.
Qed.

Lemma export_error_classes_witness :
  let w := with_fault (refuse_write "out/sample.txt" disk_full) sample_world in
  let e := Exn OSError (storage_prefix +:+ str disk_full) (Some disk_full) in
  ∃ e0, save_steps sample_table "out/sample" w
        = (inl e0, (save_all_formats sample_table "out/sample" w).2)
    ∧ ((is_OSError (exc_cls e0) = true
        ∧ e = Exn OSError ("Ошибка при сохранении файлов: " +:+ str e0) (Some e0)
        ∧ ∀ s, str_contains s (str e0) = true → str_contains s (str e) = true)
       ∨ (is_OSError (exc_cls e0) = false ∧ is_Exception (exc_cls e0) = true
          ∧ e = Exn RuntimeError ("Неожиданная ошибка при сохранении: " +:+ str e0)
                  (Some e0)
          ∧ ∀ s, str_contains s (str e0) = true → str_contains s (str e) = true)
       ∨ (is_Exception (exc_cls e0) = false ∧ e = e0)).
Proof.
  intros w e.
  apply (export_error_classes sample_table "out/sample" w).
  vm_compute. reflexivity.
Defined.

(** The text file cannot be written because the disk is full: the error that
    reaches the caller does not mention [out/sample.txt]. *)
Lemma storage_error_without_path : ¬ storage_errors_name_path.
Proof.
  intros Hclaim.
  pose (w := with_fault (refuse_write "out/sample.txt" disk_full) sample_world).
  destruct (Hclaim sample_table "out/sample" "out/sample.txt" w
              (save_all_formats sample_table "out/sample" w).2 disk_full
              (Exn OSError (storage_prefix +:+ str disk_full) (Some disk_full)))
    as [_ Hnamed].
  - reflexivity.
  - reflexivity.
  - vm_compute. reflexivity.
  - vm_compute. reflexivity.
  - vm_compute in Hnamed. discriminate.
Qed.

(** ** Directories *)

Lemma length_app_string (s t : string) :
  String.length (s +:+ t) = (String.length s + String.length t)%nat.
Proof.
  induction s as [|c s IH]; [reflexivity|].
  change (String c s +:+ t) with (String c (s +:+ t)).
  cbn [String.length]. by rewrite IH.
Qed.

Lemma head_part_length p : (String.length (head_part p) <= String.length p)%nat.
Proof.
  induction p as [|c p IH]; simpl; [lia|].
  destruct (head_part p); [destruct (Ascii.eqb c sep)|]; simpl in *; lia.
Qed.

Lemma rstrip_sep_length s : (String.length (rstrip_sep s) <= String.length s)%nat.
Proof.
  induction s as [|c s IH]; simpl; [lia|].
  destruct (rstrip_sep s); [destruct (Ascii.eqb c sep)|]; simpl in *; lia.
Qed.




Lemma dirname_length p : (String.length (dirname p) <= String.length p)%nat.
Proof.
  unfold dirname. pose proof (head_part_length p).
  pose proof (rstrip_sep_length (head_part p)).
  destruct (_ && _); lia.
Qed.


Lemma dirname_not_file base ext :
  ext ≠ "" → dirname base ≠ base +:+ ext.
Proof.
  intros Hext Heq. pose proof (dirname_length base) as Hle.
  rewrite Heq, length_app_string in Hle.
  destruct ext; [done|]. simpl in Hle. lia.
Qed.



(** ** Export: what each step prints and creates *)

Lemma silent_bind {A B} (m : M A) (k : A → M B) :
  silent m → (∀ a, silent (k a)) → silent (m ≫= k).
Proof.
  intros Hm Hk w r w'. rewrite bind_run.
  destruct (m w) as [[e|a] w1] eqn:E; intros H.
  - injection H as <- <-. exact (Hm _ _ _ E).
  - destruct (Hm _ _ _ E) as [D1 O1]. destruct (Hk a _ _ _ H) as [D2 O2].
    split; congruence.
Qed.

Lemma silent_open_w p : silent (open_w p).
Proof.
  intros w r w'. unfold open_w.
  destruct (fault _ _); [|destruct (dir_exists _ _)]; intros H; injection H as <- <-; done.
Qed.

Lemma silent_serialize p : silent (serialize p).
Proof.
  intros w r w'. unfold serialize.
  destruct (fault _ _); intros H; injection H as <- <-; done.
Qed.

Lemma silent_write p c : silent (write p c).
Proof.
  intros w r w'. unfold write.
  destruct (fault _ _); intros H; injection H as <- <-; done.
Qed.

Lemma silent_to_csv df p enc : silent (to_csv df p enc).
Proof.
  unfold to_csv. repeat (apply silent_bind; [|intros ?]);
    auto using silent_open_w, silent_serialize, silent_write.
Qed.

Lemma silent_to_json df p a i : silent (to_json df p a i).
Proof.
  unfold to_json. destruct (bool_decide _).
  - repeat (apply silent_bind; [|intros ?]);
      auto using silent_open_w, silent_serialize, silent_write.
  - intros w r w' H. injection H as <- <-. done.
Qed.

(** A step of the export that ends with its line of success: the line is
    printed exactly when the step returns. *)
Lemma step_then_print {A} (m : M A) l w r w' :
  silent m →
  (m;; print l) w = (r, w') →
  dirs (fsys w') = dirs (fsys w)
  ∧ ((∃ u, r = inr u) ∧ stdout w' = stdout w ++ [l]
     ∨ (∃ e, r = inl e) ∧ stdout w' = stdout w).
Proof.
  intros Hm. rewrite bind_run.
  destruct (m w) as [[e|a] w1] eqn:E; destruct (Hm _ _ _ E) as [D O]; intros H.
  - injection H as <- <-. split; [exact D|]. right. eauto.
  - injection H as <- <-. split; [exact D|]. left. split; [eauto|].
    simpl. by rewrite O.
Qed.

Lemma save_csv_outcome df base w r w' :
  save_csv df base w = (r, w') →
  dirs (fsys w') = dirs (fsys w)
  ∧ ((∃ u, r = inr u)
     ∧ stdout w' = stdout w ++ [Line ("✓ CSV сохранен: " +:+ csv_path base)]
     ∨ (∃ e, r = inl e) ∧ stdout w' = stdout w).
Proof. apply step_then_print, silent_to_csv. Qed.

Lemma save_json_outcome df base w r w' :
  save_json df base w = (r, w') →
  dirs (fsys w') = dirs (fsys w)
  ∧ ((∃ u, r = inr u)
     ∧ stdout w' = stdout w ++ [Line ("✓ JSON сохранен: " +:+ json_path base)]
     ∨ (∃ e, r = inl e) ∧ stdout w' = stdout w).
Proof. apply step_then_print, silent_to_json. Qed.

Lemma save_txt_outcome df base w r w' :
  save_txt df base w = (r, w') →
  dirs (fsys w') = dirs (fsys w)
  ∧ ((∃ u, r = inr u)
     ∧ stdout w' = stdout w ++ [Line ("✓ TXT сохранен: " +:+ txt_path base)]
     ∨ (∃ e, r = inl e) ∧ stdout w' = stdout w).
Proof.
  unfold save_txt. intros H.
  apply (step_then_print
           (open_w (txt_path base);; serialize (txt_path base);;
            write (txt_path base) (TxtFile "utf-8" (txt_table df)))).
  - repeat (apply silent_bind; [|intros ?]);
      auto using silent_open_w, silent_serialize, silent_write.
  - rewrite <- H. rewrite !bind_run.
    destruct (open_w _ w) as [[?|?] ?]; [reflexivity|].
    rewrite !bind_run. destruct (serialize _ _) as [[?|?] ?]; [reflexivity|].
    rewrite !bind_run. destruct (write _ _ _) as [[?|?] ?]; reflexivity.
Qed.

Lemma ensure_dir_stdout base w r w' :
  ensure_dir base w = (r, w') → stdout w' = stdout w.
Proof.
  unfold ensure_dir, makedirs. destruct (String.eqb _ _).
  - intros H. by injection H as _ <-.
  - destruct (fault _ _); [|destruct (_ || _); [|destruct (stopped_by_file _ _ _)]];
      intros H; by injection H as _ <-.
Qed.

Lemma save_all_formats_steps df base w r w' :
  save_all_formats df base w = (r, w') →
  ∃ r0, save_steps df base w = (r0, w')
        ∧ ((∃ u, r = inr u) ↔ (∃ u, r0 = inr u)).
Proof.
  unfold save_all_formats, try_except.
  destruct (save_steps df base w) as [[e|a] w1]; intros H.
  - assert (w1 = w' ∧ ∃ e', r = inl e') as [-> [e' ->]].
    { unfold save_handler, raise in H.
      destruct (is_OSError _); [|destruct (is_Exception _)];
        injection H as <- <-; eauto. }
    exists (inl e). split; [reflexivity|]. split; intros [u Hu]; discriminate.
  - injection H as <- <-. exists (inr a). split; [reflexivity|]. split; eauto.
Qed.


(** ** Export: creating the directory *)


Lemma dir_exists_frame d w w' :
  fs_frame w w' → dir_exists d (fsys w) = true → dir_exists d (fsys w') = true.
Proof.
  intros [_ D _]. unfold dir_exists. rewrite !orb_true_iff, !bool_decide_eq_true.
  intros [H|H]; [by left | right; set_solver].
Qed.



















(** With [exist_ok=False] the second export would raise. *)
Example makedirs_not_exist_ok :
  (makedirs "out" false (makedirs "out" false sample_world).2).1
  = inl (Exn FileExistsError "[Errno 17] File exists: 'out'" None).
Proof. vm_compute. reflexivity. Qed.

(** * Further properties *)

(** ** The generator and the file system *)

Lemma make_record_entropy w r w' :
  make_record w = (r, w') →
  entropy (faker w') = entropy (faker w) ∧ seen (faker w) ⊆ seen (faker w')
  ∧ fsys w' = fsys w ∧ stdout w' = stdout w.
Proof.
  unfold make_record. rewrite bind_run. unfold unique_random_int.
  destruct (unique_loop _ _ _ _ _) as [[e|id] fk] eqn:Hloop; intros H.
  - apply unique_loop_inl in Hloop as (_ & Hs & He).
    injection H as _ <-. simpl. rewrite Hs. auto.
  - apply unique_loop_inr in Hloop as (_ & _ & Hs & He); [|lia|exact I].
    injection H as _ <-. simpl. rewrite Hs. repeat split; [exact He | set_solver].
Qed.

Lemma generation_loop_frame n data w r w' :
  generation_loop n data w = (r, w') →
  entropy (faker w') = entropy (faker w) ∧ seen (faker w) ⊆ seen (faker w')
  ∧ fsys w' = fsys w ∧ stdout w' = stdout w.
Proof.
  revert data w. induction n as [|n IH]; intros data w H; simpl in H.
  - injection H as _ <-. auto.
  - rewrite bind_run in H.
    destruct (make_record w) as [[e|d] w1] eqn:Hrec;
      apply make_record_entropy in Hrec as (He & Hs & Hf & Ho).
    + injection H as _ <-. auto.
    + apply IH in H as (He' & Hs' & Hf' & Ho').
      repeat split; [congruence | set_solver | congruence | congruence].
Qed.

Lemma generation_pass_frame count w r w' :
  generation_pass count w = (r, w') →
  entropy (faker w') = entropy (faker w) ∧ seen (faker w) ⊆ seen (faker w')
  ∧ fsys w' = fsys w ∧ stdout w' = stdout w.
Proof.
  unfold generation_pass, try_except.
  destruct (generation_loop _ _ _) as [[e|d] w1] eqn:Hloop;
    apply generation_loop_frame in Hloop; intros H.
  - assert (w1 = w') as <-; [|exact Hloop].
    destruct (is_Exception _); unfold raise in H; congruence.
  - injection H as _ <-. exact Hloop.
Qed.

Lemma generate_data_pandas_nonpositive count w :
  count < 1 →
  generate_data_pandas count w
  = (inl (Exn ValueError "Количество записей должно быть больше 0" None), w).
Proof.
  intros Hlt. unfold generate_data_pandas.
  destruct (Z.ltb_spec count 1) as [_|Hge]; [reflexivity | lia].
Qed.

Lemma generate_data_pandas_frame count w r w' :
  generate_data_pandas count w = (r, w') →
  entropy (faker w') = entropy (faker w) ∧ seen (faker w) ⊆ seen (faker w')
  ∧ fsys w' = fsys w.
Proof.
  destruct (Z.lt_ge_cases count 1) as [Hlt|Hge].
  - rewrite (generate_data_pandas_nonpositive count w Hlt). intros H.
    injection H as _ <-. auto.
  - rewrite (generate_data_pandas_run count w Hge). simpl.
    destruct (generation_pass count _) as [[e|data] w2] eqn:Hpass;
      apply generation_pass_frame in Hpass as (He & Hs & Hf & _); intros H;
      injection H as _ <-; destruct (advisory_threshold <? count); auto.
Qed.

(** X1: whatever its outcome, a call of the generator changes neither the
    directories nor the files, and sets no fault. *)
Theorem generate_no_file_io (count : Z) (w w' : World) (r : exn + DataFrame) :
  generate_data_pandas count w = (r, w') → fsys w' = fsys w.
Proof. intros H. apply generate_data_pandas_frame in H. tauto. Qed.

Lemma generate_no_file_io_witness :
  fsys (generate_data_pandas 3 sample_world).2 = fsys sample_world.
Proof.
  apply (generate_no_file_io 3 sample_world _ (generate_data_pandas 3 sample_world).1).
  vm_compute. reflexivity.
Defined.

(** ** Identifiers are never given back *)

Lemma remaining_mono fk fk' : seen fk ⊆ seen fk' → remaining fk' <= remaining fk.
Proof.
  intros Hsub. unfold remaining.
  assert (size (filter in_id_range (seen fk)) ≤ size (filter in_id_range (seen fk')))%nat;
    [|lia].
  apply subseteq_size. intros x. rewrite !elem_of_filter. set_solver.
Qed.

(** X2: whatever its outcome, a call of the generator only adds to the set of
    identifiers handed out, and the free part of the range never grows.  A
    call that raises after the guard had produced, one after the other, fewer
    records than were asked for when the allocator gave up: the identifiers of
    these discarded records are distinct, were free before the call, and are
    exactly what the call leaves added to the allocated set, each of them
    taking one value from the free part of the range. *)
Theorem generate_never_releases (count : Z) (w w' : World) (r : exn + DataFrame) :
  generate_data_pandas count w = (r, w') →
  seen (faker w) ⊆ seen (faker w')
  ∧ remaining (faker w') <= remaining (faker w)
  ∧ ∀ e, r = inl e → 1 <= count →
      ∃ data wk new_ids,
        generated_in_order
          (if advisory_threshold <? count then emit advisory w else w) data wk
        ∧ (length data < Z.to_nat count)%nat
        ∧ make_record wk = (inl uniqueness_exception, w')
        ∧ Forall2 record_with_id new_ids data
        ∧ NoDup new_ids
        ∧ Forall (fun i => i ∉ seen (faker w)) new_ids
        ∧ seen (faker w') = list_to_set new_ids ∪ seen (faker w)
        ∧ remaining (faker w') = remaining (faker w) - Z.of_nat (length data).
Proof.
  intros H. pose proof (generate_data_pandas_frame _ _ _ _ H) as (_ & Hs & _).
  split; [exact Hs|]. split; [by apply remaining_mono|].
  intros e -> Hge. rewrite (generate_data_pandas_run _ _ Hge) in H. cbv zeta in H.
  change (set_stdout (stdout w ++ [advisory]) w) with (emit advisory w) in H.
  set (w1 := if advisory_threshold <? count then emit advisory w else w) in *.
  assert (Hw1 : seen (faker w1) = seen (faker w)) by (subst w1; by destruct (_ <? _)).
  destruct (generation_pass count w1) as [[e1|data] w2] eqn:Hpass; [|discriminate].
  injection H as -> ->.
  unfold generation_pass, try_except in Hpass.
  destruct (generation_loop _ _ _) as [[e0|d] w3] eqn:Hloop; [|discriminate].
  apply generation_loop_inl_in_order in Hloop as (data & wk & Hord & Hlt & Hrec).
  pose proof (make_record_inl _ _ _ Hrec) as (-> & Hseen & _).
  assert (w' = w3) as -> by (simpl in Hpass; by injection Hpass).
  pose proof (generated_in_order_allocated _ _ _ Hord) as (_ & new_ids & Hrecs & Halloc).
  exists data, wk, new_ids.
  split; [exact Hord|]. split; [exact Hlt|]. split; [exact Hrec|].
  split; [exact Hrecs|]. split; [apply Halloc|].
  split; [rewrite <- Hw1; apply Halloc|].
  split; [rewrite Hseen, <- Hw1; apply Halloc|].
  pose proof (allocated_remaining _ _ _ Halloc) as Hrem.
  rewrite <- (Forall2_length _ _ _ Hrecs).
  unfold remaining in *. rewrite Hseen, Hrem, Hw1. reflexivity.
Qed.

Lemma generate_never_releases_witness :
  let r := generate_data_pandas 2 stuck_world in
  ∃ data wk new_ids,
    generated_in_order stuck_world data wk
    ∧ (length data < Z.to_nat 2)%nat
    ∧ make_record wk = (inl uniqueness_exception, r.2)
    ∧ Forall2 record_with_id new_ids data
    ∧ NoDup new_ids
    ∧ Forall (fun i => i ∉ seen (faker stuck_world)) new_ids
    ∧ seen (faker r.2) = list_to_set new_ids ∪ seen (faker stuck_world)
    ∧ remaining (faker r.2)
      = remaining (faker stuck_world) - Z.of_nat (length data).
Proof.
  intros r.
  destruct (generate_never_releases 2 stuck_world r.2 r.1) as (_ & _ & H).
  - vm_compute. reflexivity.
  - eapply H; [vm_compute; reflexivity | lia].
Defined.

(** ** A source that repeats itself *)

Lemma unique_loop_stuck_seen attempts retval fk v :
  stuck_source fk v → v ∈ seen fk → retval = None ∨ retval = Some v →
  ∃ fk', unique_loop attempts 100000 999999 retval fk = (inl uniqueness_exception, fk')
         ∧ seen fk' = seen fk ∧ entropy fk' = entropy fk.
Proof.
  intros Hstuck Hin. revert retval fk Hstuck Hin.
  induction attempts as [|n IH]; intros retval fk Hstuck Hin Hret; cbn [unique_loop].
  - eexists. repeat split.
  - assert (Hdraw : random_int 100000 999999 fk = (v, advance fk)).
    { unfold random_int. f_equal. apply Hstuck. }
    destruct Hret as [->| ->].
    + rewrite Hdraw. apply (IH (Some v) (advance fk)); auto.
    + destruct (decide (v ∈ seen fk)); [|done].
      rewrite Hdraw. apply (IH (Some v) (advance fk)); auto.
Qed.

Lemma make_record_stuck_seen w v :
  stuck_source (faker w) v → v ∈ seen (faker w) →
  ∃ w', make_record w = (inl uniqueness_exception, w')
        ∧ seen (faker w') = seen (faker w).
Proof.
  intros Hstuck Hin.
  destruct (unique_loop_stuck_seen _UNIQUE_ATTEMPTS None (faker w) v Hstuck Hin)
    as (fk' & Hloop & Hs & _); [by left|].
  unfold make_record. rewrite bind_run. unfold unique_random_int. rewrite Hloop.
  eexists. split; [reflexivity | exact Hs].
Qed.

Lemma generation_loop_stuck_seen n data w v :
  stuck_source (faker w) v → v ∈ seen (faker w) →
  ∃ w', generation_loop (S n) data w = (inl uniqueness_exception, w')
        ∧ seen (faker w') = seen (faker w).
Proof.
  intros Hstuck Hin.
  destruct (make_record_stuck_seen w v Hstuck Hin) as (w' & Hrec & Hs).
  exists w'. simpl. rewrite bind_run, Hrec. auto.
Qed.

Lemma stuck_source_entropy fk fk' v :
  entropy fk' = entropy fk → stuck_source fk v → stuck_source fk' v.
Proof. intros He H n. rewrite He. apply H. Qed.

Lemma unique_loop_stuck_fresh n fk v :
  stuck_source fk v → v ∉ seen fk →
  unique_loop (S (S n)) 100000 999999 None fk = (inr v, remember v (advance fk)).
Proof.
  intros Hstuck Hnin.
  assert (Hdraw : random_int 100000 999999 fk = (v, advance fk)).
  { unfold random_int. f_equal. apply Hstuck. }
  cbn [unique_loop]. rewrite Hdraw. cbn [advance seen].
  destruct (decide (v ∈ seen fk)); [done | reflexivity].
Qed.

Lemma make_record_stuck_fresh w v :
  stuck_source (faker w) v → v ∉ seen (faker w) →
  ∃ d w1, make_record w = (inr d, w1)
          ∧ seen (faker w1) = {[v]} ∪ seen (faker w)
          ∧ entropy (faker w1) = entropy (faker w).
Proof.
  intros Hstuck Hnin.
  unfold make_record. rewrite bind_run. unfold unique_random_int.
  change _UNIQUE_ATTEMPTS with (S (S 998)).
  rewrite (unique_loop_stuck_fresh 998 (faker w) v Hstuck Hnin).
  eexists _, _. split; [reflexivity|]. split; reflexivity.
Qed.

Lemma generation_loop_stuck n data w v :
  stuck_source (faker w) v →
  ∃ w', generation_loop (S (S n)) data w = (inl uniqueness_exception, w')
        ∧ v ∈ seen (faker w') ∧ seen (faker w') ⊆ {[v]} ∪ seen (faker w).
Proof.
  intros Hstuck.
  destruct (decide (v ∈ seen (faker w))) as [Hin|Hnin].
  - destruct (generation_loop_stuck_seen (S n) data w v Hstuck Hin) as (w' & H & Hs).
    exists w'. split; [exact H|]. rewrite Hs. set_solver.
  - destruct (make_record_stuck_fresh w v Hstuck Hnin) as (d & w1 & Hrec & Hs & He).
    assert (Hin1 : v ∈ seen (faker w1)) by (rewrite Hs; set_solver).
    destruct (generation_loop_stuck_seen n (data ++ [d]) w1 v
                (stuck_source_entropy _ _ _ He Hstuck) Hin1) as (w' & H & Hs').
    exists w'.
    change (generation_loop (S (S n)) data w)
      with ((r ← make_record; generation_loop (S n) (data ++ [r])) w).
    rewrite bind_run, Hrec. split; [exact H|]. rewrite Hs', Hs. set_solver.
Qed.

(** X3: if the pseudo-random source proposes the same identifier at every
    draw, a call for two or more records raises the generation error, however
    much of the range is free: at most that one identifier is taken, and it
    stays taken. *)
Theorem generate_stuck_source (n : Z) (w : World) (v : Z) :
  stuck_source (faker w) v →
  2 <= n →
  ∃ w', generate_data_pandas n w = (inl generation_error, w')
        ∧ v ∈ seen (faker w')
        ∧ seen (faker w') ⊆ {[v]} ∪ seen (faker w)
        ∧ remaining (faker w) - 1 <= remaining (faker w').
Proof.
  intros Hstuck Hn.
  rewrite (generate_data_pandas_run n w) by lia. simpl.
  set (w1 := if advisory_threshold <? n then _ else w).
  assert (Hfk : faker w1 = faker w) by (subst w1; destruct (_ <? _); reflexivity).
  destruct (Z.to_nat n) as [|[|k]] eqn:Hk; [lia | lia |].
  destruct (generation_loop_stuck k [] w1 v) as (w' & Hloop & Hin & Hsub).
  { by rewrite Hfk. }
  rewrite Hfk in Hsub.
  unfold generation_pass, try_except. rewrite Hk, Hloop.
  exists w'. split; [reflexivity|]. split; [exact Hin|]. split; [exact Hsub|].
  unfold remaining.
  assert (size (filter in_id_range (seen (faker w')))
          ≤ S (size (filter in_id_range (seen (faker w)))))%nat; [|lia].
  etrans; [apply (subseteq_size _ ({[v]} ∪ filter in_id_range (seen (faker w))))|].
  - intros x. rewrite elem_of_filter, elem_of_union, elem_of_singleton, elem_of_filter.
    intros [Hr Hx]. apply Hsub in Hx. set_solver.
  - rewrite size_union_alt, size_singleton.
    pose proof (subseteq_size (filter in_id_range (seen (faker w)) ∖ {[v]})
                  (filter in_id_range (seen (faker w)))) as Hle.
    specialize (Hle ltac:(set_solver)). lia.
Qed.

Lemma generate_stuck_source_witness :
  ∃ w', generate_data_pandas 2 stuck_world = (inl generation_error, w')
        ∧ 100000 ∈ seen (faker w')
        ∧ seen (faker w') ⊆ {[100000]} ∪ seen (faker stuck_world)
        ∧ remaining (faker stuck_world) - 1 <= remaining (faker w').
Proof.
  apply (generate_stuck_source 2 stuck_world 100000).
  - intros n. reflexivity.
  - lia.
Defined.

(** ** The rows of a generated table *)

Lemma replace_lacks old new s :
  old ≠ new → lacks old (replace old new s) = true.
Proof.
  intros Hne. induction s as [|c s IH]; [reflexivity|].
  simpl. rewrite IH, andb_true_r.
  destruct (Ascii.eqb_spec c old) as [->|Hc].
  - destruct (Ascii.eqb_spec new old); [congruence | reflexivity].
  - destruct (Ascii.eqb_spec c old); [congruence | reflexivity].
Qed.

Lemma make_record_row w d w1 :
  make_record w = (inr d, w1) → record_row (entropy (faker w)) d.*2.
Proof.
  unfold make_record. intros H.
  apply bind_inr in H as (id & w0 & Hid & H).
  unfold unique_random_int in Hid.
  destruct (unique_loop _ _ _ _ _) as [r fk] eqn:Hloop.
  injection Hid as -> <-.
  apply unique_loop_inr in Hloop as (Hr & _ & _ & He); [|lia|exact I].
  injection H as <- _. simpl. rewrite He.
  unfold record_row. do 8 eexists. split; [reflexivity | exact Hr].
Qed.

Lemma generation_loop_rows n data w data' w' :
  generation_loop n data w = (inr data', w') →
  ∃ new, data' = data ++ new
         ∧ Forall (fun d : dict => record_row (entropy (faker w)) d.*2) new.
Proof.
  revert data w. induction n as [|n IH]; intros data w H; simpl in H.
  - injection H as <- _. exists []. by rewrite app_nil_r.
  - apply bind_inr in H as (r & w1 & Hrec & H).
    pose proof (make_record_entropy _ _ _ Hrec) as (He & _).
    apply make_record_row in Hrec.
    apply IH in H as (new & -> & Hnew). rewrite He in Hnew.
    exists (r :: new). rewrite <- app_assoc. split; [reflexivity|].
    constructor; assumption.
Qed.

Lemma generate_data_pandas_rows count w df w' :
  generate_data_pandas count w = (inr df, w') →
  columns df = record_labels
  ∧ Forall (record_row (entropy (faker w))) (rows df).
Proof.
  intros H. pose proof H as Hinr.
  apply generate_data_pandas_inr in Hinr as (Hge & Hcols & _).
  split; [exact Hcols|].
  rewrite (generate_data_pandas_run _ _ Hge) in H. simpl in H.
  destruct (generation_pass count _) as [[e|data] w2] eqn:Hpass; [discriminate|].
  injection H as <- _.
  apply generation_pass_inr in Hpass. pose proof Hpass as Hloop.
  apply generation_loop_inr in Hloop as (new & -> & Hlen & _ & new_ids & Hnew & _).
  apply generation_loop_rows in Hpass as (new' & Heq & Hrows).
  simpl app in *. subst new'.
  assert (Hne : new ≠ []) by (intros ->; simpl in Hlen; lia).
  destruct (pd_DataFrame_table _ _ Hnew Hne) as (_ & _ & -> & _).
  assert (Hent : entropy (faker (if advisory_threshold <? count
                                  then set_stdout (stdout w ++ [advisory]) w else w))
                 = entropy (faker w)) by (destruct (_ <? _); reflexivity).
  rewrite Hent in Hrows. clear -Hrows.
  induction Hrows; constructor; assumption.
Qed.

(** X4: every row of a generated table has eight cells under the eight
    labels: an integer identifier of the range and seven texts; the
    description, the last one, contains no line break. *)
Theorem generated_rows_shape (n : Z) (w w' : World) (df : DataFrame) :
  generate_data_pandas n w = (inr df, w') →
  columns df = record_labels
  ∧ Forall (record_row (entropy (faker w))) (rows df)
  ∧ Forall (fun r => length r = length (columns df)
                     ∧ ∃ s, row_description r = Some s ∧ lacks newline s = true)
      (rows df).
Proof.
  intros H. apply generate_data_pandas_rows in H as (Hcols & Hrows).
  split; [exact Hcols|]. split; [exact Hrows|].
  rewrite Hcols. eapply Forall_impl; [exact Hrows|].
  intros r (id & a & b & c & d & e & raw & k & -> & _).
  split; [reflexivity|]. eexists. split; [reflexivity|].
  apply replace_lacks. discriminate.
Qed.

Lemma generated_rows_shape_witness :
  let df := table_of (generate_data_pandas 3 sample_world) in
  columns df = record_labels
  ∧ Forall (record_row (entropy (faker sample_world))) (rows df)
  ∧ Forall (fun r => length r = length (columns df)
                     ∧ ∃ s, row_description r = Some s ∧ lacks newline s = true)
      (rows df).
Proof.
  intros df.
  apply (generated_rows_shape 3 sample_world (generate_data_pandas 3 sample_world).2 df).
  vm_compute. reflexivity.
Defined.

(** ** The registration date *)

(** Counting up in decimal, little end first: [k] successive numerals from
    [u] on all satisfy [f]. *)
Lemma all_successors_spec (f : Decimal.uint → bool) k u :
  all_successors f k u = true →
  ∀ j, (j < k)%nat → f (Nat.to_little_uint j u) = true.
Proof.
  revert u. induction k as [|k IH]; intros u H j Hj; [lia|].
  simpl in H. apply andb_prop in H as [Hu H].
  destruct j as [|j]; [exact Hu|]. simpl. apply IH; [exact H | lia].
Qed.

Lemma to_little_uint_add a b acc :
  Nat.to_little_uint (a + b) acc = Nat.to_little_uint b (Nat.to_little_uint a acc).
Proof. revert acc. induction a as [|a IH]; intros acc; [reflexivity|]. simpl. apply IH. Qed.

Lemma four_digits_from_1000 :
  all_successors (fun u => four_digits (zfill 4 (NilZero.string_of_uint (Decimal.rev u))))
    (Z.to_nat 9000) (Nat.to_little_uint 1000 Decimal.zero) = true.
Proof. vm_compute. reflexivity. Qed.

Lemma two_digits_from_1 :
  all_successors (fun u => two_digits (zfill 2 (NilZero.string_of_uint (Decimal.rev u))))
    31 (Nat.to_little_uint 1 Decimal.zero) = true.
Proof. vm_compute. reflexivity. Qed.

Lemma four_digits_year y :
  (1000 <= y)%nat → Z.of_nat y <= 9999 → four_digits (zfill 4 (decimal y)) = true.
Proof.
  intros Hlo Hhi.
  replace y with (1000 + (y - 1000))%nat by lia.
  unfold decimal, Nat.to_uint. rewrite to_little_uint_add.
  apply (all_successors_spec _ _ _ four_digits_from_1000). lia.
Qed.

Lemma two_digits_day y :
  (1 <= y <= 31)%nat → two_digits (zfill 2 (decimal y)) = true.
Proof.
  intros Hy.
  replace y with (1 + (y - 1))%nat by lia.
  unfold decimal, Nat.to_uint. rewrite to_little_uint_add.
  apply (all_successors_spec _ _ _ two_digits_from_1). lia.
Qed.

Lemma strftime_Ymd_iso d : four_digit_date d → is_iso_date (strftime_Ymd d) = true.
Proof.
  intros (Hy & Hm & Hd).
  pose proof (four_digits_year (year d) ltac:(lia) ltac:(lia)) as HY.
  pose proof (two_digits_day (month d) ltac:(lia)) as HM.
  pose proof (two_digits_day (day d) ltac:(lia)) as HD.
  unfold strftime_Ymd.
  destruct (zfill 4 (decimal (year d))) as [|y1 [|y2 [|y3 [|y4 [|]]]]]; try discriminate.
  destruct (zfill 2 (decimal (month d))) as [|m1 [|m2 [|]]]; try discriminate.
  destruct (zfill 2 (decimal (day d))) as [|a1 [|a2 [|]]]; try discriminate.
  cbn [four_digits two_digits] in HY, HM, HD.
  apply andb_prop in HY as [HY Hy4]. apply andb_prop in HY as [HY Hy3].
  apply andb_prop in HY as [Hy1 Hy2].
  apply andb_prop in HM as [Hm1 Hm2]. apply andb_prop in HD as [Ha1 Ha2].
  cbv [String.append is_iso_date].
  rewrite Hy1, Hy2, Hy3, Hy4, Hm1, Hm2, Ha1, Ha2. reflexivity.
Qed.

(** X5: when the dates that the pseudo-random source yields are calendar
    dates with a year of four digits, the registration date of every row of
    a generated table is written as four digits, a dash, two digits, a dash
    and two digits. *)
Theorem generated_dates_iso (n : Z) (w w' : World) (df : DataFrame) :
  (∀ k, four_digit_date (rand_date (entropy (faker w)) k)) →
  generate_data_pandas n w = (inr df, w') →
  Forall (fun r => ∃ s, row_date r = Some s ∧ is_iso_date s = true) (rows df).
Proof.
  intros Hdates H. apply generate_data_pandas_rows in H as (_ & Hrows).
  eapply Forall_impl; [exact Hrows|].
  intros r (id & a & b & c & d & e & raw & k & -> & _).
  eexists. split; [reflexivity|]. apply strftime_Ymd_iso, Hdates.
Qed.

Lemma generated_dates_iso_witness :
  Forall (fun r => ∃ s, row_date r = Some s ∧ is_iso_date s = true)
    (rows (table_of (generate_data_pandas 3 sample_world))).
Proof.
  apply (generated_dates_iso 3 sample_world (generate_data_pandas 3 sample_world).2).
  - intros k. unfold four_digit_date. cbn [sample_world faker entropy sample_entropy rand_date year month day].
    pose proof (Nat.mod_upper_bound k 28). lia.
  - vm_compute. reflexivity.
Defined.

(** ** Asking for more records *)

Lemma generation_loop_add n m data w :
  generation_loop (n + m) data w
  = (d ← generation_loop n data; generation_loop m d) w.
Proof.
  revert data w. induction n as [|n IH]; intros data w; [reflexivity|].
  change (generation_loop (S n + m) data w)
    with ((r ← make_record; generation_loop (n + m) (data ++ [r])) w).
  change ((d ← generation_loop (S n) data; generation_loop m d) w)
    with ((d ← (r ← make_record; generation_loop n (data ++ [r]));
           generation_loop m d) w).
  rewrite bind_run, (bind_run (r ← make_record; generation_loop n (data ++ [r]))).
  rewrite (bind_run make_record).
  destruct (make_record w) as [[e|r] w1]; [reflexivity|].
  rewrite IH, bind_run. reflexivity.
Qed.

(** X6: if a call for [n + k] records succeeds, so does a call for [n]
    records from the same world, and its table is the first [n] rows of the
    larger one, with the same identifiers: the records come in the order in
    which they were produced, and later iterations change no earlier
    record. *)
Theorem generate_prefix (n k : Z) (w w' : World) (df' : DataFrame) :
  1 <= n → 0 <= k →
  generate_data_pandas (n + k) w = (inr df', w') →
  ∃ df w1, generate_data_pandas n w = (inr df, w1)
           ∧ columns df = columns df'
           ∧ rows df = take (Z.to_nat n) (rows df')
           ∧ ids df = take (Z.to_nat n) (ids df').
Proof.
  intros Hn Hk H.
  pose proof (generate_data_pandas_capacity _ _ _ _ H) as Hcap.
  apply generate_data_pandas_loop in H as (data' & w2 & Hloop & -> & ->).
  rewrite Z2Nat.inj_add, generation_loop_add in Hloop by lia.
  apply bind_inr in Hloop as (data & wm & Hfirst & Hrest).
  pose proof Hfirst as Hshape.
  apply generation_loop_inr in Hshape as (new & -> & Hlen & _ & ids1 & Hrec1 & _).
  pose proof Hrest as Hmore.
  apply generation_loop_inr in Hmore as (more & -> & Hlen2 & _ & ids2 & Hrec2 & _).
  simpl app in *.
  assert (Hne : new ≠ []) by (intros ->; simpl in Hlen; lia).
  assert (Hne' : new ++ more ≠ []) by (destruct new; done).
  assert (Hall : Forall2 record_with_id (ids1 ++ ids2) (new ++ more))
    by (by apply Forall2_app).
  destruct (pd_DataFrame_table _ _ Hrec1 Hne) as (_ & Hc & Hr & Hd).
  destruct (pd_DataFrame_table _ _ Hall Hne') as (_ & Hc' & Hr' & Hd').
  exists (pd_DataFrame new), (emit ElapsedLine wm).
  split; [apply generate_data_pandas_of_loop; [lia | exact Hfirst]|].
  split; [congruence|].
  split.
  - rewrite Hr, Hr', map_app, <- Hlen.
    rewrite <- (length_map (fun d : dict => d.*2) new) at 1.
    by rewrite take_app_length.
  - unfold ids. rewrite Hd, Hd', (omap_dict_id _ _ Hrec1), (omap_dict_id _ _ Hall).
    rewrite <- Hlen, <- (Forall2_length _ _ _ Hrec1). by rewrite take_app_length.
Qed.

Lemma generate_prefix_witness :
  ∃ df w1, generate_data_pandas 2 sample_world = (inr df, w1)
           ∧ columns df = columns sample_table
           ∧ rows df = take (Z.to_nat 2) (rows sample_table)
           ∧ ids df = take (Z.to_nat 2) (ids sample_table).
Proof.
  apply (generate_prefix 2 1 sample_world (generate_data_pandas 3 sample_world).2).
  - lia.
  - lia.
  - vm_compute. reflexivity.
Defined.

(** ** Export: the files it touches *)

(** X8: whatever its outcome, an export changes no file other than the three
    it writes, removes no directory, and leaves the generator's state and
    the environment as they were. *)
Theorem export_footprint (df : DataFrame) (base_name : string) (w w' : World)
    (r : exn + unit) :
  save_all_formats df base_name w = (r, w') →
  faker w' = faker w
  ∧ fault (fsys w') = fault (fsys w)
  ∧ dirs (fsys w) ⊆ dirs (fsys w')
  ∧ ∀ p, p ∉ [csv_path base_name; json_path base_name; txt_path base_name] →
         files (fsys w') !! p = files (fsys w) !! p.
Proof.
  intros H. apply save_all_formats_steps in H as (r0 & H & _).
  destruct (touches_only_save_steps _ _ _ _ _ H) as [[F D K] P]. auto.
Qed.

Lemma export_footprint_witness :
  let w := with_fault (refuse_write "out/sample.json" disk_full) sample_world in
  let s := save_all_formats sample_table "out/sample" w in
  faker s.2 = faker w
  ∧ fault (fsys s.2) = fault (fsys w)
  ∧ dirs (fsys w) ⊆ dirs (fsys s.2)
  ∧ ∀ p, p ∉ [csv_path "out/sample"; json_path "out/sample"; txt_path "out/sample"] →
         files (fsys s.2) !! p = files (fsys w) !! p.
Proof.
  intros w s.
  apply (export_footprint sample_table "out/sample" w s.2 s.1).
  vm_compute. reflexivity.
Defined.

(** X7: the last export wins.  Exporting [df1] and then [df2] to the same
    base name leaves the files that exporting [df2] alone leaves: the three
    documents of [df2], with nothing of [df1] in them. *)
Theorem export_last_wins (df1 df2 : DataFrame) (base_name : string)
    (w w1 w2 v2 : World) :
  save_all_formats df1 base_name w = (inr tt, w1) →
  save_all_formats df2 base_name w1 = (inr tt, w2) →
  save_all_formats df2 base_name w = (inr tt, v2) →
  files (fsys w2) = files (fsys v2)
  ∧ files (fsys w2) !! csv_path base_name = Some (csv_document df2)
  ∧ files (fsys w2) !! json_path base_name = Some (json_document df2)
  ∧ files (fsys w2) !! txt_path base_name = Some (txt_document df2).
Proof.
  intros H1 H2 H3.
  pose proof (save_all_formats_files _ _ _ _ _ H2) as (C2 & J2 & T2).
  pose proof (save_all_formats_files _ _ _ _ _ H3) as (C3 & J3 & T3).
  split; [|auto].
  apply save_all_formats_inr in H1, H2, H3.
  destruct (touches_only_save_steps _ _ _ _ _ H1) as [_ P1].
  destruct (touches_only_save_steps _ _ _ _ _ H2) as [_ P2].
  destruct (touches_only_save_steps _ _ _ _ _ H3) as [_ P3].
  apply map_eq. intros p.
  destruct (decide (p ∈ [csv_path base_name; json_path base_name; txt_path base_name]))
    as [Hin|Hout].
  - rewrite !elem_of_cons, elem_of_nil in Hin.
    destruct Hin as [->|[->|[->|[]]]]; congruence.
  - rewrite (P2 p Hout), (P1 p Hout), (P3 p Hout). reflexivity.
Qed.

Lemma export_last_wins_witness :
  let df1 := sample_table in
  let df2 := table_of (generate_data_pandas 1 sample_world) in
  let w1 := (save_all_formats df1 "out/sample" sample_world).2 in
  let w2 := (save_all_formats df2 "out/sample" w1).2 in
  let v2 := (save_all_formats df2 "out/sample" sample_world).2 in
  files (fsys w2) = files (fsys v2)
  ∧ files (fsys w2) !! csv_path "out/sample" = Some (csv_document df2)
  ∧ files (fsys w2) !! json_path "out/sample" = Some (json_document df2)
  ∧ files (fsys w2) !! txt_path "out/sample" = Some (txt_document df2).
Proof.
  intros df1 df2 w1 w2 v2.
  apply (export_last_wins df1 df2 "out/sample" sample_world w1 w2 v2).
  - vm_compute. reflexivity.
  - vm_compute. reflexivity.
  - vm_compute. reflexivity.
Defined.

(** ** Export: a base name without directory *)

Lemma head_part_no_sep p : has_sep p = false → head_part p = "".
Proof.
  induction p as [|c p IH]; [reflexivity|]. simpl.
  intros H. apply orb_false_elim in H as [Hc Hp]. by rewrite (IH Hp), Hc.
Qed.

Lemma dirname_no_sep p : has_sep p = false → dirname p = "".
Proof. intros H. unfold dirname. by rewrite (head_part_no_sep _ H). Qed.

Lemma head_part_sep p : has_sep p = true → head_part p ≠ "".
Proof.
  induction p as [|c p IH]; [discriminate|]. simpl. intros H.
  destruct (head_part p) as [|c' h] eqn:Hh; [|discriminate].
  destruct (Ascii.eqb c sep); [discriminate|].
  simpl in H. by apply IH in H.
Qed.

Lemma rstrip_sep_nonempty s : all_sep s = false → rstrip_sep s ≠ "".
Proof.
  induction s as [|c s IH]; [discriminate|]. simpl.
  destruct (rstrip_sep s) as [|c' r] eqn:Hr; [|discriminate].
  destruct (Ascii.eqb c sep); [|discriminate].
  simpl. intros H. by apply IH in H.
Qed.

(** The directory of a path is empty exactly when the path has no
    separator. *)
Lemma dirname_empty_iff p : dirname p = "" ↔ has_sep p = false.
Proof.
  split; [|apply dirname_no_sep].
  intros H. destruct (has_sep p) eqn:Hs; [|reflexivity]. exfalso.
  apply head_part_sep in Hs. unfold dirname in H.
  destruct (String.eqb_spec (head_part p) ""); [done|]. simpl in H.
  destruct (all_sep (head_part p)) eqn:Ha; simpl in H; [done|].
  by apply rstrip_sep_nonempty in Ha.
Qed.



(** ** Export: the three paths *)

(** X12: the three files that an export writes have three different paths,
    all in the directory of the base name, and none of them is that directory
    or the base name itself. *)
Theorem export_paths (base_name : string) :
  NoDup [csv_path base_name; json_path base_name; txt_path base_name]
  ∧ Forall (fun p => dirname p = dirname base_name
                     ∧ p ≠ dirname base_name ∧ p ≠ base_name)
      [csv_path base_name; json_path base_name; txt_path base_name].
Proof.
  destruct (paths_distinct base_name) as (Hcj & Hct & Hjt).
  destruct (dirname_paths base_name) as (Dc & Dj & Dt).
  split.
  - repeat constructor; rewrite ?elem_of_cons, ?elem_of_nil; naive_solver.
  - assert (Hself : ∀ ext, ext ≠ "" → base_name +:+ ext ≠ base_name).
    { intros ext Hext Heq.
      pose proof (length_app_string base_name ext) as Hlen. rewrite Heq in Hlen.
      destruct ext; [done|]. simpl in Hlen. lia. }
    repeat constructor; try assumption;
      try (intros Heq; symmetry in Heq; by apply dirname_not_file in Heq);
      by apply Hself.
Qed.

(** ** Export: the lines of progress *)

Lemma report_saved_run base w :
  report_saved base w
  = (inr tt, emit (Line (String newline
                           ("✓ Все файлы успешно сохранены в "
                              +:+ (if String.eqb (dirname base) "" then "текущую директорию"
                                   else dirname base) +:+ "/"))) w).
Proof. reflexivity. Qed.

(** X10: the lines that an export prints are the first [k] of its four lines
    of success, for some [k]; the line of a file is there only if the file
    holds its complete document, and all four are there exactly when the
    export returns. *)
Theorem export_progress_lines (df : DataFrame) (base_name : string) (w w' : World)
    (r : exn + unit) :
  save_all_formats df base_name w = (r, w') →
  ∃ k : nat,
    stdout w' = stdout w ++ take k (export_lines base_name)
    ∧ (k = 0 ∨ k = 1 ∨ k = 2 ∨ k = 4)%nat
    ∧ ((1 <= k)%nat → files (fsys w') !! csv_path base_name = Some (csv_document df))
    ∧ ((2 <= k)%nat → files (fsys w') !! json_path base_name = Some (json_document df))
    ∧ (k = 4%nat ↔ r = inr tt)
    ∧ (k = 4%nat → files (fsys w') !! txt_path base_name = Some (txt_document df)).
Proof.
  intros H. apply save_all_formats_steps in H as (r0 & H & Hr).
  assert (Hr4 : ∀ k : nat, (k = 4%nat ↔ ∃ u : unit, r0 = inr u) → (k = 4%nat ↔ r = inr tt)).
  { intros k Hk. rewrite Hk, <- Hr. split; [intros [[] ->]; reflexivity | eauto]. }
  destruct (paths_distinct base_name) as (Hcj & Hct & Hjt).
  unfold save_steps in H. rewrite bind_run in H.
  destruct (ensure_dir base_name w) as [[e|a] w0] eqn:H0;
    pose proof (ensure_dir_stdout _ _ _ _ H0) as O0.
  { injection H as <- <-. exists 0%nat. rewrite app_nil_r.
    split; [exact O0|]. split; [auto|]. split; [lia|]. split; [lia|].
    split; [|lia]. apply Hr4. split; [lia | intros [? ?]; discriminate]. }
  rewrite bind_run in H.
  destruct (save_csv df base_name w0) as [[e|b] w1] eqn:H1.
  { pose proof (save_csv_outcome _ _ _ _ _ H1) as [_ [[[? ?] _]|[_ O1]]];
      [discriminate|].
    injection H as <- <-. exists 0%nat. rewrite app_nil_r.
    split; [congruence|]. split; [auto|]. split; [lia|]. split; [lia|].
    split; [|lia]. apply Hr4. split; [lia | intros [? ?]; discriminate]. }
  pose proof (save_csv_outcome _ _ _ _ _ H1) as [_ [[_ O1]|[[? ?] _]]];
    [|discriminate].
  pose proof (save_csv_inr _ _ _ _ _ H1) as C1.
  rewrite bind_run in H.
  destruct (save_json df base_name w1) as [[e|c] w2] eqn:H2.
  { pose proof (save_json_outcome _ _ _ _ _ H2) as [_ [[[? ?] _]|[_ O2]]];
      [discriminate|].
    destruct (touches_only_save_json _ _ _ _ _ H2) as [_ P2].
    injection H as <- <-. exists 1%nat.
    split; [simpl; congruence|]. split; [auto|].
    split; [intros _; rewrite P2 by set_solver; exact C1|]. split; [lia|].
    split; [|lia]. apply Hr4. split; [lia | intros [? ?]; discriminate]. }
  pose proof (save_json_outcome _ _ _ _ _ H2) as [_ [[_ O2]|[[? ?] _]]];
    [|discriminate].
  destruct (touches_only_save_json _ _ _ _ _ H2) as [_ P2].
  pose proof (save_json_inr _ _ _ _ _ H2) as J2.
  rewrite bind_run in H.
  destruct (save_txt df base_name w2) as [[e|d] w3] eqn:H3.
  { pose proof (save_txt_outcome _ _ _ _ _ H3) as [_ [[[? ?] _]|[_ O3]]];
      [discriminate|].
    destruct (touches_only_save_txt _ _ _ _ _ H3) as [_ P3].
    injection H as <- <-. exists 2%nat.
    split; [simpl; rewrite O3, O2, O1, O0, <- app_assoc; reflexivity|].
    split; [auto|].
    split; [intros _; rewrite P3, P2 by set_solver; exact C1|].
    split; [intros _; rewrite P3 by set_solver; exact J2|].
    split; [|lia]. apply Hr4. split; [lia | intros [? ?]; discriminate]. }
  pose proof (save_txt_outcome _ _ _ _ _ H3) as [_ [[_ O3]|[[? ?] _]]];
    [|discriminate].
  destruct (touches_only_save_txt _ _ _ _ _ H3) as [_ P3].
  pose proof (save_txt_inr _ _ _ _ _ H3) as T3.
  rewrite report_saved_run in H. injection H as <- <-. exists 4%nat.
  split.
  { simpl. rewrite O3, O2, O1, O0, <- !app_assoc. reflexivity. }
  split; [auto|].
  split; [intros _; simpl; rewrite P3, P2 by set_solver; exact C1|].
  split; [intros _; simpl; rewrite P3 by set_solver; exact J2|].
  split; [apply Hr4; split; eauto|].
  intros _. exact T3.
Qed.

Lemma export_progress_lines_witness :
  let w := with_fault (refuse_write "out/sample.json" disk_full) sample_world in
  let s := save_all_formats sample_table "out/sample" w in
  ∃ k : nat,
    stdout s.2 = stdout w ++ take k (export_lines "out/sample")
    ∧ (k = 0 ∨ k = 1 ∨ k = 2 ∨ k = 4)%nat
    ∧ ((1 <= k)%nat →
       files (fsys s.2) !! csv_path "out/sample" = Some (csv_document sample_table))
    ∧ ((2 <= k)%nat →
       files (fsys s.2) !! json_path "out/sample" = Some (json_document sample_table))
    ∧ (k = 4%nat ↔ s.1 = inr tt)
    ∧ (k = 4%nat →
       files (fsys s.2) !! txt_path "out/sample" = Some (txt_document sample_table)).
Proof.
  intros w s.
  apply (export_progress_lines sample_table "out/sample" w s.2 s.1).
  vm_compute. reflexivity.
Defined.

(** ** Export: a text file that cannot be completed *)

Lemma open_w_inr_dir p w u w' :
  open_w p w = (inr u, w') → dir_exists (dirname p) (fsys w) = true.
Proof.
  unfold open_w. destruct (fault _ _); [discriminate|].
  destruct (dir_exists _ _); [reflexivity | discriminate].
Qed.

Lemma save_csv_inr_dir df base w u w' :
  save_csv df base w = (inr u, w') → dir_exists (dirname base) (fsys w) = true.
Proof.
  unfold save_csv, to_csv. intros H.
  apply bind_inr in H as (? & w1 & H & _).
  apply bind_inr in H as (? & w2 & H & _).
  apply open_w_inr_dir in H. destruct (dirname_paths base) as (Hc & _).
  by rewrite Hc in H.
Qed.

(** X11: the text file is opened, and thereby emptied, before the table is
    turned into text.  If the CSV and JSON steps have completed, the file can
    be opened, and then the rendering or the write is refused, the export
    raises and the text file is left incomplete, whatever it held before. *)
Theorem export_truncates_text_file (df : DataFrame) (base_name : string)
    (w w2 : World) (e : exn) :
  (ensure_dir base_name;; save_csv df base_name;; save_json df base_name) w
  = (inr tt, w2) →
  fault (fsys w) (OpOpen (txt_path base_name)) = None →
  fault (fsys w) (OpSerialize (txt_path base_name)) = Some e
  ∨ fault (fsys w) (OpSerialize (txt_path base_name)) = None
    ∧ fault (fsys w) (OpWrite (txt_path base_name)) = Some e →
  ∃ e' w', save_all_formats df base_name w = (inl e', w')
           ∧ w' = put_file (txt_path base_name) Partial w2
           ∧ files (fsys w') !! txt_path base_name = Some Partial.
Proof.
  intros Hpre Hopen Hfail.
  apply bind_inr in Hpre as (? & w0 & Hdir & Hpre).
  apply bind_inr in Hpre as (? & w1 & Hcsv & Hjson).
  destruct (touches_only_ensure_dir _ _ _ _ Hdir) as [F0 _].
  destruct (touches_only_save_csv _ _ _ _ _ Hcsv) as [F1 _].
  destruct (touches_only_save_json _ _ _ _ _ Hjson) as [F2 _].
  pose proof (fs_frame_trans _ _ _ F1 F2) as F12.
  pose proof (fs_frame_trans _ _ _ F0 F12) as F.
  assert (Hd : dir_exists (dirname (txt_path base_name)) (fsys w2) = true).
  { destruct (dirname_paths base_name) as (_ & _ & ->).
    eapply dir_exists_frame; [exact F12|]. eapply save_csv_inr_dir, Hcsv. }
  pose proof (frame_fault _ _ F) as Hf.
  assert (Htxt : ∃ e0, save_txt df base_name w2
                       = (inl e0, put_file (txt_path base_name) Partial w2)).
  { unfold save_txt. rewrite bind_run. unfold open_w at 1.
    rewrite Hf, Hopen, Hd. rewrite bind_run. unfold serialize at 1.
    cbn [put_file set_fsys set_files fsys fault]. rewrite Hf.
    destruct Hfail as [Hs | [Hs Hw]]; rewrite Hs; [eauto|].
    rewrite bind_run. unfold write at 1.
    cbn [put_file set_fsys set_files fsys fault]. rewrite Hf, Hw. eauto. }
  destruct Htxt as (e0 & Htxt).
  assert (Hsteps : save_steps df base_name w
                   = (inl e0, put_file (txt_path base_name) Partial w2)).
  { unfold save_steps. by rewrite bind_run, Hdir, bind_run, Hcsv, bind_run, Hjson,
      bind_run, Htxt. }
  unfold save_all_formats, try_except. rewrite Hsteps.
  unfold save_handler, raise.
  destruct (is_OSError _); [|destruct (is_Exception _)];
    (eexists _, _; split; [reflexivity|]; split; [reflexivity|];
     cbn [put_file set_fsys set_files fsys files]; apply lookup_insert_eq).
Qed.

Lemma export_truncates_text_file_witness :
  let w := with_fault (refuse (OpSerialize "out/sample.txt")
                         (Exn TypeError "unsupported value" None))
             (save_all_formats sample_table "out/sample" sample_world).2 in
  files (fsys w) !! txt_path "out/sample" = Some (txt_document sample_table)
  ∧ ∃ e' w', save_all_formats sample_table "out/sample" w = (inl e', w')
             ∧ w' = put_file (txt_path "out/sample") Partial
                      ((ensure_dir "out/sample";; save_csv sample_table "out/sample";;
                        save_json sample_table "out/sample") w).2
             ∧ files (fsys w') !! txt_path "out/sample" = Some Partial.
Proof.
  intros w. split; [vm_compute; reflexivity|].
  apply (export_truncates_text_file sample_table "out/sample" w _
           (Exn TypeError "unsupported value" None)).
  - vm_compute. reflexivity.
  - reflexivity.
  - left. reflexivity.
Defined.

(** ** The command line program *)

Lemma lower_ascii_y c : lower_ascii c = "y"%char ↔ c = "y"%char ∨ c = "Y"%char.
Proof.
  split.
  - destruct c as [[] [] [] [] [] [] [] []]; vm_compute; intros H;
      first [discriminate | by left | by right].
  - intros [->| ->]; reflexivity.
Qed.

Lemma lower_y response : String.eqb (lower response) "y" = true ↔ says_yes response.
Proof.
  unfold says_yes. rewrite String.eqb_eq. split.
  - destruct response as [|c [|c' r]]; simpl; intros H; try discriminate.
    injection H as H. apply lower_ascii_y in H as [->| ->]; auto.
  - intros [->| ->]; reflexivity.
Qed.

(** The [try] block of [main]: its two lines, the generator, the exporter,
    its two closing lines. *)
Lemma main_steps_run args w :
  main_steps args w
  = match generate_data_pandas (count args) (emit (Line dashes) (emit (launch_line args) w)) with
    | (inl e, wg) => (inl e, wg)
    | (inr df, wg) =>
        match save_all_formats df (output args) wg with
        | (inl e, ws) => (inl e, ws)
        | (inr _, ws) => (inr tt, emit (success_line args) (emit (Line dashes) ws))
        end
    end.
Proof.
  cbv [main_steps mbind M_bind bind print launch_line success_line].
  destruct (generate_data_pandas _ _) as [[e|df] wg]; [reflexivity|].
  destruct (save_all_formats _ _ _) as [[e|[]] ws]; reflexivity.
Qed.


Lemma main_handler_cases e p o p' :
  main_handler e p = (o, p') →
  world p' = world p ∧ stdin p' = stdin p
  ∧ ((o = Exited 1 ∧ ∃ m, stderr p' = stderr p ++ [m])
     ∨ (o = Propagated e ∧ is_Exception (exc_cls e) = false ∧ stderr p' = stderr p)).
Proof.
  unfold main_handler.
  destruct (exc_cls e) eqn:Hc; simpl; intros H; injection H as <- <-; simpl;
    (split; [reflexivity|]; split; [reflexivity|]); eauto.
Qed.

(** After its own check of the count, [main] is its [try] block run from
    where the optional confirmation leaves the process. *)
Lemma main_run args p :
  1 <= count args → count args <= 1000000 →
  main args p = run_steps args p.
Proof.
  intros Hge Hle. unfold main.
  destruct (Z.ltb_spec (count args) 1); [lia|].
  destruct (Z.ltb_spec 1000000 (count args)); [lia | reflexivity].
Qed.

Lemma main_confirm args p response rest :
  1000000 < count args → stdin p = response :: rest →
  main args p
  = if String.eqb (lower response) "y"
    then run_steps args (at_try args p)
    else (Exited 0, oprint "Отменено пользователем" (at_try args p)).
Proof.
  intros Hbig Hin. unfold main, at_try.
  destruct (Z.ltb_spec (count args) 1); [lia|].
  destruct (Z.ltb_spec 1000000 (count args)); [|lia].
  unfold input. cbn [oprint set_world stdin]. rewrite Hin. reflexivity.
Qed.

Lemma main_end_of_input args p :
  1000000 < count args → stdin p = [] →
  main args p = (EndOfInput, at_try args p).
Proof.
  intros Hbig Hin. unfold main, at_try.
  destruct (Z.ltb_spec (count args) 1); [lia|].
  destruct (Z.ltb_spec 1000000 (count args)); [|lia].
  unfold input. cbn [oprint set_world stdin]. rewrite Hin. reflexivity.
Qed.


Lemma main_rejects args p :
  count args < 1 →
  main args p = (Exited 1, eprint "❌ Ошибка: Количество записей должно быть больше 0" p).
Proof.
  intros Hlt. unfold main. destruct (Z.ltb_spec (count args) 1); [reflexivity | lia].
Qed.

(** How a run of [main] that passes its own check ends: the cancellation,
    the end of input, or the [try] block run from [at_try]. *)
Lemma main_cases args p o p' :
  1 <= count args →
  main args p = (o, p') →
  (1000000 < count args ∧ o = EndOfInput ∧ stdin p = [] ∧ p' = at_try args p)
  ∨ (1000000 < count args ∧ o = Exited 0
     ∧ (∃ response rest, stdin p = response :: rest ∧ ¬ says_yes response)
     ∧ p' = oprint "Отменено пользователем" (at_try args p))
  ∨ ((count args <= 1000000
      ∨ ∃ response rest, stdin p = response :: rest ∧ says_yes response)
     ∧ run_steps args (at_try args p) = (o, p')).
Proof.
  intros Hge H.
  destruct (Z.le_gt_cases (count args) 1000000) as [Hle|Hbig].
  - right; right. rewrite (main_run _ _ Hge Hle) in H. split; [by left|].
    unfold at_try. destruct (Z.ltb_spec 1000000 (count args)); [lia | exact H].
  - destruct (stdin p) as [|response rest] eqn:Hin.
    + left. rewrite (main_end_of_input args p ltac:(lia) Hin) in H.
      injection H as <- <-. repeat split. lia.
    + rewrite (main_confirm args p response rest ltac:(lia) Hin) in H.
      destruct (String.eqb (lower response) "y") eqn:Hy.
      * right; right. apply lower_y in Hy. split; [right; eauto | exact H].
      * right; left. injection H as <- <-. split; [lia|]. split; [reflexivity|].
        split; [|reflexivity]. exists response, rest. split; [reflexivity|].
        intros Hyes. apply lower_y in Hyes. congruence.
Qed.

Lemma run_steps_cases args p o p' :
  run_steps args p = (o, p') →
  (o = Returned ∧ ∃ w', main_steps args (world p) = (inr tt, w') ∧ p' = set_world w' p)
  ∨ (∃ e w', main_steps args (world p) = (inl e, w')
             ∧ main_handler e (set_world w' p) = (o, p')).
Proof.
  unfold run_steps.
  destruct (main_steps args (world p)) as [[e|[]] w'] eqn:Hsteps; intros H.
  - right. eauto.
  - left. injection H as <- <-. eauto.
Qed.



(** X15: when [main] returns, the count was between 1 and 900000, nothing
    was read from standard input or written to standard error, the three
    files hold the documents of one table with exactly that many records and
    pairwise distinct identifiers, the range has that many free identifiers
    less, and the last line printed is the line of success. *)
Theorem main_returned (args : Namespace) (p p' : Process) :
  main args p = (Returned, p') →
  1 <= count args <= 900000
  ∧ stdin p' = stdin p ∧ stderr p' = stderr p
  ∧ remaining (faker (world p')) = remaining (faker (world p)) - count args
  ∧ last (stdout (world p')) = Some (success_line args)
  ∧ ∃ df, length (rows df) = Z.to_nat (count args)
          ∧ length (ids df) = Z.to_nat (count args)
          ∧ NoDup (ids df)
          ∧ files (fsys (world p')) !! csv_path (output args) = Some (csv_document df)
          ∧ files (fsys (world p')) !! json_path (output args) = Some (json_document df)
          ∧ files (fsys (world p')) !! txt_path (output args) = Some (txt_document df).
Proof.
  intros H.
  assert (Hge : 1 <= count args).
  { destruct (Z.lt_ge_cases (count args) 1) as [Hlt|Hge]; [|exact Hge].
    rewrite (main_rejects _ _ Hlt) in H. discriminate. }
  pose proof (main_cases _ _ _ _ Hge H)
    as [(_ & Ho & _) | [(_ & Ho & _) | (Hway & Hrun)]]; try discriminate.
  apply run_steps_cases in Hrun as [(_ & w' & Hsteps & ->) | (e & w' & _ & Hh)].
  2:{ apply main_handler_cases in Hh as (_ & _ & [(Ho & _) | (Ho & _)]); discriminate. }
  rewrite main_steps_run in Hsteps.
  destruct (generate_data_pandas _ _) as [[eg|df] wg] eqn:Hgen; [discriminate|].
  destruct (save_all_formats _ _ _) as [[es|u] ws] eqn:Hsave; [discriminate|].
  injection Hsteps as <-. destruct u.
  pose proof (generate_data_pandas_capacity _ _ _ _ Hgen) as Hcap.
  assert (Hsmall : count args <= 1000000) by lia.
  assert (Htry : at_try args p = p).
  { unfold at_try. destruct (Z.ltb_spec 1000000 (count args)); [lia | reflexivity]. }
  rewrite Htry in *.
  pose proof (generate_data_pandas_inr _ _ _ _ Hgen)
    as (_ & _ & Hrows & Hids & _ & Halloc & _).
  pose proof (allocated_remaining _ _ _ Halloc) as Hrem. rewrite Hids in Hrem.
  destruct (touches_only_save_steps _ _ _ _ _ (save_all_formats_inr _ _ _ _ _ Hsave))
    as [[_ _ Hfk] _].
  pose proof (save_all_formats_files _ _ _ _ _ Hsave) as (C & J & T).
  split; [exact Hcap|]. split; [reflexivity|]. split; [reflexivity|].
  split.
  { cbn [set_world world emit set_stdout faker]. rewrite Hfk.
    cbn [emit set_stdout faker] in Hrem. lia. }
  split; [cbn [set_world world emit set_stdout stdout]; apply last_snoc|].
  exists df. split; [exact Hrows|]. split; [exact Hids|].
  split; [apply (alloc_NoDup _ _ _ Halloc)|]. auto.
Qed.

Lemma main_returned_witness :
  let p := {| world := sample_world; stdin := ["unread"]; stderr := [] |} in
  let args := {| count := 3; output := "out/sample" |} in
  let p' := (main args p).2 in
  1 <= count args <= 900000
  ∧ stdin p' = stdin p ∧ stderr p' = stderr p
  ∧ remaining (faker (world p')) = remaining (faker (world p)) - count args
  ∧ last (stdout (world p')) = Some (success_line args)
  ∧ ∃ df, length (rows df) = Z.to_nat (count args)
          ∧ length (ids df) = Z.to_nat (count args)
          ∧ NoDup (ids df)
          ∧ files (fsys (world p')) !! csv_path (output args) = Some (csv_document df)
          ∧ files (fsys (world p')) !! json_path (output args) = Some (json_document df)
          ∧ files (fsys (world p')) !! txt_path (output args) = Some (txt_document df).
Proof.
  intros p args p'.
  apply (main_returned args p p').
  vm_compute. reflexivity.
Defined.




